(** * find_max_module: the kernel module's initialisation routine

    A shallow embedding of [src/linux_sys_3/find_max_module.c].  The routine
    [find_max_init] validates the element count, renders the received array
    into a stack buffer, scans for the maximum, collects the indices of the
    maximum and renders them into a second stack buffer.

    The embedding keeps the module's two parameters and the locals of
    [find_max_init] in one record and runs the routine in a state monad with
    a fault: every store into an array and every load from one is bounds
    checked, and an access outside the array makes the run fault ([None]).
    "The routine never writes past a buffer" is therefore the statement that
    the run does not fault. *)

From Stdlib Require Import ZArith Lia Ascii String Bool Sorted.
From stdpp Require Import base list.

Local Open Scope Z_scope.

(** ** Text *)

(** Text is a list of characters; [str] turns a literal into one. *)
Definition str (s : string) : list ascii := list_ascii_of_string s.

Definition NUL : ascii := Ascii.zero.
Definition nl : ascii := ascii_of_nat 10.

Definition len {A} (l : list A) : Z := Z.of_nat (length l).

(** ** Machine integers *)

Definition INT_MIN : Z := - 2 ^ 31.
Definition INT_MAX : Z := 2 ^ 31 - 1.

(** Arithmetic on [int] wraps around (the kernel is built with
    -fno-strict-overflow). *)
Definition wrap32 (z : Z) : Z := (z + 2 ^ 31) mod 2 ^ 32 - 2 ^ 31.

(** Conversion to [size_t], an unsigned 64-bit integer. *)
Definition to_size_t (z : Z) : Z := z mod 2 ^ 64.

Definition is_int (z : Z) : Prop := INT_MIN <= z <= INT_MAX.

(** ** The [%d] conversion of [snprintf]

    The digits are produced least significant first, as the kernel's
    [number] does; twenty rounds cover every 64-bit magnitude. *)

Definition digit_char (d : Z) : ascii := ascii_of_nat (48 + Z.to_nat d).

Fixpoint put_dec (fuel : nat) (n : Z) (acc : list ascii) : list ascii :=
  match fuel with
  | O => acc
  | S fuel' =>
      let acc' := digit_char (n mod 10) :: acc in
      if n / 10 =? 0 then acc' else put_dec fuel' (n / 10) acc'
  end.

Definition fmt_u (n : Z) : list ascii := put_dec 20 n [].

Definition fmt_d (z : Z) : list ascii :=
  if z <? 0 then ascii_of_nat 45 :: fmt_u (- z) else fmt_u z.

(** Reading a decimal numeral back, used to state that [fmt_u] is right. *)
Definition digit_val (c : ascii) : Z := Z.of_nat (nat_of_ascii c) - 48.

Definition dec_val (s : list ascii) : Z :=
  fold_left (fun a c => 10 * a + digit_val c) s 0.

(** ** The state of the module and the monad of the routine *)

Inductive level : Type := KERN_ERR | KERN_WARNING | KERN_INFO.

(** [input_array] and [num_elements] are the module's parameters (file
    scope).  The remaining fields are the locals of [find_max_init] that
    live in memory: its two results [max_val] and [count], the index
    storage, and the two text buffers.  [klog] is the kernel log, oldest
    record first. *)
Record state : Type := State {
  input_array : list Z;
  num_elements : Z;
  max_val : Z;
  count : Z;
  max_indices : list Z;
  array_str : list ascii;
  indices_str : list ascii;
  klog : list (level * list ascii)
}.

Definition MAX_ARRAY_SIZE : Z := 16.

(** [EINVAL] is the kernel's errno 22 (asm-generic/errno-base.h). *)
Definition EINVAL : Z := 22.

(** A computation reads and updates the state, or faults ([None]) on an
    access outside an array. *)
Definition M (A : Type) : Type := state -> option (A * state).

Definition ret {A} (a : A) : M A := fun st => Some (a, st).

Definition bind {A B} (m : M A) (f : A -> M B) : M B :=
  fun st => match m st with
            | Some (a, st') => f a st'
            | None => None
            end.

Declare Scope kmod_scope.
Delimit Scope kmod_scope with kmod.
Notation "'let*' x := m 'in' k" := (bind m (fun x => k))
  (at level 10, x name, m at level 99, k at level 200) : kmod_scope.
Notation "m ;; k" := (bind m (fun _ => k))
  (at level 100, k at level 200, right associativity) : kmod_scope.
Local Open Scope kmod_scope.

Definition get {A} (f : state -> A) : M A := fun st => Some (f st, st).

(** Assignments to single fields. *)
Definition upd_max_val (v : Z) (st : state) : state :=
  State (input_array st) (num_elements st) v (count st)
        (max_indices st) (array_str st) (indices_str st) (klog st).

Definition upd_count (v : Z) (st : state) : state :=
  State (input_array st) (num_elements st) (max_val st) v
        (max_indices st) (array_str st) (indices_str st) (klog st).

Definition upd_indices (v : list Z) (st : state) : state :=
  State (input_array st) (num_elements st) (max_val st) (count st)
        v (array_str st) (indices_str st) (klog st).

Definition with_log (st : state) (recs : list (level * list ascii)) : state :=
  State (input_array st) (num_elements st) (max_val st) (count st)
        (max_indices st) (array_str st) (indices_str st) (klog st ++ recs).

Definition set_max_val (v : Z) : M unit := fun st => Some (tt, upd_max_val v st).

Definition set_count (v : Z) : M unit := fun st => Some (tt, upd_count v st).

Definition printk (l : level) (msg : list ascii) : M unit := fun st =>
  Some (tt, with_log st [(l, msg)]).

(** *** The [int] arrays *)

Inductive intarr : Type := INPUT_ARRAY | MAX_INDICES.

Definition arr_of (a : intarr) (st : state) : list Z :=
  match a with
  | INPUT_ARRAY => input_array st
  | MAX_INDICES => max_indices st
  end.

(** [a[i]] as an rvalue. *)
Definition load (a : intarr) (i : Z) : M Z := fun st =>
  if 0 <=? i then
    match arr_of a st !! Z.to_nat i with
    | Some v => Some (v, st)
    | None => None
    end
  else None.

(** [max_indices[i] = v]. *)
Definition store_index (i v : Z) : M unit := fun st =>
  if (0 <=? i) && (i <? len (max_indices st)) then
    Some (tt, upd_indices (<[Z.to_nat i := v]> (max_indices st)) st)
  else None.

(** *** The text buffers *)

Inductive strbuf : Type := ARRAY_STR | INDICES_STR.

Definition buf_of (b : strbuf) (st : state) : list ascii :=
  match b with
  | ARRAY_STR => array_str st
  | INDICES_STR => indices_str st
  end.

Definition set_buf (b : strbuf) (v : list ascii) (st : state) : state :=
  match b with
  | ARRAY_STR =>
      State (input_array st) (num_elements st) (max_val st) (count st)
            (max_indices st) v (indices_str st) (klog st)
  | INDICES_STR =>
      State (input_array st) (num_elements st) (max_val st) (count st)
            (max_indices st) (array_str st) v (klog st)
  end.

(** [sizeof(buf)]: the declared capacity of the buffer. *)
Definition sizeof (b : strbuf) : M Z := get (fun st => len (buf_of b st)).

Definition store_char (b : strbuf) (pos : Z) (c : ascii) : M unit := fun st =>
  if (0 <=? pos) && (pos <? len (buf_of b st)) then
    Some (tt, set_buf b (<[Z.to_nat pos := c]> (buf_of b st)) st)
  else None.

Fixpoint store_chars (b : strbuf) (pos : Z) (cs : list ascii) : M unit :=
  match cs with
  | [] => ret tt
  | c :: cs' => store_char b pos c ;; store_chars b (pos + 1) cs'
  end.

(** [snprintf(buf + pos, size, ...)] where the format expands to [text]:
    at most [size - 1] characters of [text] and a terminating NUL are
    stored, nothing at all when [size] is 0, and the length of the whole
    [text] is returned.  The kernel's [vsnprintf] rejects a [size] above
    [INT_MAX] and returns 0. *)
Definition snprintf (b : strbuf) (pos size : Z) (text : list ascii) : M Z :=
  if INT_MAX <? size then ret 0
  else if size =? 0 then ret (len text)
  else store_chars b pos (take (Z.to_nat (size - 1)) text ++ [NUL])
       ;; ret (len text).

(** The string a [%s] conversion reads from a buffer: the characters before
    the first NUL.  Running off the end of the buffer is a fault. *)
Fixpoint c_string (buf : list ascii) : option (list ascii) :=
  match buf with
  | [] => None
  | c :: rest =>
      if Ascii.eqb c NUL then Some []
      else match c_string rest with
           | Some s => Some (c :: s)
           | None => None
           end
  end.

Definition read_string (b : strbuf) : M (list ascii) := fun st =>
  match c_string (buf_of b st) with
  | Some s => Some (s, st)
  | None => None
  end.

(** ** The routine

    A loop [for (i = 0; i < n; i++)] runs [n] times unless it breaks; its
    model recurses on the number of iterations that are left and carries
    the index [i] along. *)

(** The text of one element: ["%d%s"] with the separator left out after the
    last element. *)
Definition item_text (n i x : Z) : list ascii :=
  fmt_d x ++ (if i =? wrap32 (n - 1) then [] else str ", ").

(** The loop of a rendering block (lines 44-51 and 83-90): [k] iterations
    are left, [i] is the loop index and [offset] the write position.  It
    yields the final [offset]. *)
Fixpoint render_loop (b : strbuf) (a : intarr) (warning : list ascii)
    (n : Z) (k : nat) (i offset : Z) : M Z :=
  match k with
  | O => ret offset
  | S k' =>
      let* x := load a i in
      let* size := sizeof b in
      let* r := snprintf b offset (to_size_t (size - offset))
                         (item_text n i x) in
      if (r <? 0) || (to_size_t (size - offset) <=? to_size_t r) then
        printk KERN_WARNING warning ;; ret offset
      else
        render_loop b a warning n k' (wrap32 (i + 1)) (wrap32 (offset + r))
  end.

(** A rendering block (lines 37-54 and 77-92): the header, the [n] elements
    of [a], the closing bracket, and the log record. *)
Definition render (b : strbuf) (a : intarr) (header warning : list ascii)
    (n : Z) : M unit :=
  let offset := 0 in
  let* size := sizeof b in
  let* r := snprintf b offset (to_size_t (size - offset)) header in
  let offset := if r >? 0 then wrap32 (offset + r) else offset in
  let* offset := render_loop b a warning n (Z.to_nat n) 0 offset in
  let* size := sizeof b in
  let* _ := snprintf b offset (to_size_t (size - offset)) (str "]") in
  let* s := read_string b in
  printk KERN_INFO (s ++ [nl]).

Definition array_header (n : Z) : list ascii :=
  str "Received " ++ fmt_d n ++ str " element(s): [".
Definition array_warning : list ascii :=
  str "Input array string truncated." ++ [nl].
Definition indices_header : list ascii := str "Found at index/indices: [".
Definition indices_warning : list ascii :=
  str "Indices string truncated." ++ [nl].
Definition overflow_warning : list ascii :=
  str "More occurrences of max value found than index storage allows ("
  ++ fmt_d MAX_ARRAY_SIZE ++ str ")." ++ [nl].
Definition no_index_warning : list ascii :=
  str "Could not find any index for the maximum value (this should not happen!)."
  ++ [nl].

(** The first scan (lines 56-60). *)
Fixpoint scan_max (k : nat) (i : Z) : M unit :=
  match k with
  | O => ret tt
  | S k' =>
      let* x := load INPUT_ARRAY i in
      let* m := get max_val in
      (if x >? m then set_max_val x else ret tt) ;;
      scan_max k' (wrap32 (i + 1))
  end.

(** The second scan (lines 64-74). *)
Fixpoint collect_indices (k : nat) (i : Z) : M unit :=
  match k with
  | O => ret tt
  | S k' =>
      let* x := load INPUT_ARRAY i in
      let* m := get max_val in
      if x =? m then
        let* c := get count in
        if c <? MAX_ARRAY_SIZE then
          store_index c i ;;
          set_count (wrap32 (c + 1)) ;;
          collect_indices k' (wrap32 (i + 1))
        else
          printk KERN_WARNING overflow_warning
      else collect_indices k' (wrap32 (i + 1))
  end.

(** The end of [find_max_init] (lines 76-97): the report of the indices and
    the return value. *)
Definition report_indices : M Z :=
  let* c := get count in
  (if c >? 0 then
     render INDICES_STR MAX_INDICES indices_header indices_warning c
   else
     printk KERN_WARNING no_index_warning) ;;
  ret 0.

(** [find_max_init] (lines 20-98); the result is the value it returns. *)
Definition find_max_init : M Z :=
  set_max_val INT_MIN ;;
  set_count 0 ;;
  printk KERN_INFO (str "Find Max Module: Initializing..." ++ [nl]) ;;
  let* n := get num_elements in
  if n <=? 0 then
    printk KERN_ERR
      (str "No elements provided in input_array. Please provide data like: input_array=1,2,3"
       ++ [nl]) ;;
    ret (- EINVAL)
  else if n >? MAX_ARRAY_SIZE then
    printk KERN_ERR
      (str "Number of elements (" ++ fmt_d n
       ++ str ") exceeds maximum allowed size (" ++ fmt_d MAX_ARRAY_SIZE
       ++ str ")." ++ [nl]) ;;
    ret (- EINVAL)
  else
    render ARRAY_STR INPUT_ARRAY (array_header n) array_warning n ;;
    scan_max (Z.to_nat n) 0 ;;
    let* m := get max_val in
    printk KERN_INFO (str "Maximum value found: " ++ fmt_d m ++ [nl]) ;;
    set_count 0 ;;
    collect_indices (Z.to_nat n) 0 ;;
    report_indices.


(** ** Well-formed states *)

(** What the module loader and the C declarations guarantee on entry: the
    parameter array has its 16 slots, every slot and the count are [int]s,
    the index storage has 16 slots.  The contents of the locals are
    arbitrary. *)
Record entry_state (st : state) : Prop := {
  entry_array_len : len (input_array st) = MAX_ARRAY_SIZE;
  entry_array_int : Forall is_int (input_array st);
  entry_count_int : is_int (num_elements st);
  entry_indices_len : len (max_indices st) = MAX_ARRAY_SIZE
}.

(** The capacities that [find_max_init] declares for its text buffers. *)
Definition declared_buffers (st : state) : Prop :=
  len (array_str st) = 256 /\ len (indices_str st) = 256.

(** The element count passes the two checks of lines 28-35. *)
Definition valid_count (st : state) : Prop :=
  1 <= num_elements st <= MAX_ARRAY_SIZE.

(** A state to run examples on: the module loaded with the parameter
    [input_array=xs], zero-filled locals. *)
Definition loaded (xs : list Z) : state :=
  State (xs ++ replicate (16 - length xs) 0) (len xs) 0 0
        (replicate 16 0) (replicate 256 NUL) (replicate 256 NUL) [].

(** The same with text buffers of capacity [cap]. *)
Definition loaded_with (cap : nat) (xs : list Z) : state :=
  State (xs ++ replicate (16 - length xs) 0) (len xs) 0 0
        (replicate 16 0) (replicate cap NUL) (replicate cap NUL) [].

(** ** The result and the rendered text, as functions of the input *)

(** The elements the routine looks at. *)
Definition elements (st : state) : list Z :=
  take (Z.to_nat (num_elements st)) (input_array st).

(** The running maximum after the elements [xs], from the value [m]. *)
Definition running_max (m : Z) (xs : list Z) : Z :=
  fold_left (fun m x => if x >? m then x else m) xs m.

(** The positions of [m] in [xs], counted from [i]. *)
Fixpoint positions (m : Z) (i : Z) (xs : list Z) : list Z :=
  match xs with
  | [] => []
  | x :: rest =>
      if x =? m then i :: positions m (i + 1) rest
      else positions m (i + 1) rest
  end.

Fixpoint item_texts (n i : Z) (xs : list Z) : list (list ascii) :=
  match xs with
  | [] => []
  | x :: rest => item_text n i x :: item_texts n (i + 1) rest
  end.

(** Appending texts to [acc] while they fit, NUL included, in [cap] bytes;
    the flag tells whether a text was cut. *)
Fixpoint fit (cap : Z) (acc : list ascii) (texts : list (list ascii))
    : list ascii * bool :=
  match texts with
  | [] => (acc, false)
  | t :: rest =>
      if cap - len acc <=? len t then (acc, true)
      else fit cap (acc ++ t) rest
  end.

(** The line a rendering block logs with a buffer of [cap] bytes, and
    whether it warned. *)
Definition rendered (cap : Z) (header : list ascii) (n : Z) (xs : list Z)
    : list ascii * bool :=
  let (acc, cut) := fit cap header (item_texts n 0 xs) in
  (acc ++ take (Z.to_nat (cap - len acc - 1)) (str "]"), cut).

(** The whole text of a rendering, when nothing is cut. *)
Definition full_text (header : list ascii) (n : Z) (xs : list Z) : list ascii :=
  header ++ concat (item_texts n 0 xs) ++ str "]".

(** The buffer after [snprintf] has written [text] at position [p]. *)
Definition written (buf : list ascii) (p : nat) (text : list ascii) : list ascii :=
  let w := take (length buf - S p) text in
  take p buf ++ w ++ NUL :: drop (p + length w + 1) buf.

(** The records a rendering block adds to the log. *)
Definition render_log (cap : Z) (header warning : list ascii) (n : Z)
    (xs : list Z) : list (level * list ascii) :=
  let (line, cut) := rendered cap header n xs in
  (if cut then [(KERN_WARNING, warning)] else []) ++ [(KERN_INFO, line ++ [nl])].

Definition no_NUL (s : list ascii) : Prop := Forall (fun c => c <> NUL) s.

(** The value and the index list that [find_max_init] computes. *)
Definition result_value (st : state) : Z := running_max INT_MIN (elements st).

Definition result_indices (st : state) : list Z :=
  positions (result_value st) 0 (elements st).

(** The indices that the routine has collected: the first [count] slots of
    the index storage. *)
Definition collected (st : state) : list Z :=
  take (Z.to_nat (count st)) (max_indices st).

Definition init_record : level * list ascii :=
  (KERN_INFO, str "Find Max Module: Initializing..." ++ [nl]).

Definition max_record (m : Z) : level * list ascii :=
  (KERN_INFO, str "Maximum value found: " ++ fmt_d m ++ [nl]).

(** The records a run with a valid element count adds to the log. *)
Definition run_log (st : state) : list (level * list ascii) :=
  init_record
  :: render_log (len (array_str st)) (array_header (num_elements st))
                array_warning (num_elements st) (elements st)
  ++ max_record (result_value st)
  :: render_log (len (indices_str st)) indices_header indices_warning
                (len (result_indices st)) (result_indices st).

(** Text buffers large enough for the headers of the two renderings. *)
Definition buffers_hold_headers (st : state) : Prop :=
  26 <= len (array_str st) <= INT_MAX /\ 26 <= len (indices_str st) <= INT_MAX.

(** The two texts the routine renders: up to the closing bracket
    ([_body]) and whole ([_text]). *)
Definition array_body (st : state) : list ascii :=
  array_header (num_elements st)
  ++ concat (item_texts (num_elements st) 0 (elements st)).

Definition array_text (st : state) : list ascii :=
  full_text (array_header (num_elements st)) (num_elements st) (elements st).

Definition indices_body (st : state) : list ascii :=
  indices_header
  ++ concat (item_texts (len (result_indices st)) 0 (result_indices st)).

Definition indices_text (st : state) : list ascii :=
  full_text indices_header (len (result_indices st)) (result_indices st).

(** What a rendering into a buffer of [cap] bytes adds to the log [recs]
    when its text is [body] before the closing bracket: the line it logs
    fits in the buffer together with its NUL, and when [body] does not fit
    the warning is logged and the line is a proper prefix of [body],
    closed by the bracket if a byte is left for it. *)
Definition truncates_within (cap : Z) (warning body line : list ascii)
    (recs : list (level * list ascii)) : Prop :=
  (KERN_INFO, line ++ [nl]) ∈ recs /\
  len line < cap /\
  (cap <= len body ->
   (KERN_WARNING, warning) ∈ recs /\
   exists kept rest,
     line = kept ++ take (Z.to_nat (cap - len kept - 1)) (str "]") /\
     rest <> [] /\ body = kept ++ rest).

(** The lines the two renderings log. *)
Definition array_line (st : state) : list ascii :=
  (rendered (len (array_str st)) (array_header (num_elements st))
            (num_elements st) (elements st)).1.

Definition indices_line (st : state) : list ascii :=
  (rendered (len (indices_str st)) indices_header
            (len (result_indices st)) (result_indices st)).1.

(** Two states for examples: text buffers of 40 bytes, too small for the
    array text below; and an index storage that is already full when the
    second scan meets another maximum. *)
Definition undersized : state := loaded_with 40 [100; 200; -300; 7].

Definition full_storage : state :=
  State (replicate 16 9) 16 9 16 (replicate 16 0)
        (replicate 256 NUL) (replicate 256 NUL) [].

(** ** The records of a rejected run and of the unload *)

Definition empty_error : list ascii :=
  str "No elements provided in input_array. Please provide data like: input_array=1,2,3"
  ++ [nl].

Definition too_many_error (n : Z) : list ascii :=
  str "Number of elements (" ++ fmt_d n
  ++ str ") exceeds maximum allowed size (" ++ fmt_d MAX_ARRAY_SIZE
  ++ str ")." ++ [nl].

(** The records a run with a rejected element count adds to the log. *)
Definition reject_log (st : state) : list (level * list ascii) :=
  [ init_record;
    (KERN_ERR, if num_elements st <=? 0 then empty_error
               else too_many_error (num_elements st)) ].


(** The return value and the new records of a run, from the element count,
    the elements and the capacities of the buffers alone. *)
Definition outcome_ret (st : state) : Z :=
  if (1 <=? num_elements st) && (num_elements st <=? MAX_ARRAY_SIZE) then 0
  else - EINVAL.

Definition outcome_log (st : state) : list (level * list ascii) :=
  if (1 <=? num_elements st) && (num_elements st <=? MAX_ARRAY_SIZE)
  then run_log st else reject_log st.

(** Two states that agree on what the routine is given: the element count,
    the elements it covers, and the capacities of the text buffers. *)
Definition same_input (st1 st2 : state) : Prop :=
  num_elements st1 = num_elements st2 /\
  elements st1 = elements st2 /\
  len (array_str st1) = len (array_str st2) /\
  len (indices_str st1) = len (indices_str st2).

(** A line that holds the header, the first [j] of the element texts whole,
    and the closing bracket if a byte of the [cap] is left for it; [j] is
    all the elements, or the next one does not fit. *)
Definition whole_elements (cap : Z) (header : list ascii)
    (texts : list (list ascii)) (j : nat) (line : list ascii) : Prop :=
  (j <= length texts)%nat /\
  (let kept := header ++ concat (take j texts) in
   line = kept ++ take (Z.to_nat (cap - len kept - 1)) (str "]")) /\
  ((j < length texts)%nat ->
   cap <= len (header ++ concat (take (S j) texts))).

(** ** Facts about the decimal conversion *)

Lemma digit_val_char (d : Z) : 0 <= d < 10 -> digit_val (digit_char d) = d.
Proof.
  intros Hd. unfold digit_val, digit_char.
  rewrite nat_ascii_embedding by lia. lia.
Qed.

Lemma digit_char_not_NUL (d : Z) : 0 <= d < 10 -> digit_char d <> NUL.
Proof.
  intros Hd E. apply (f_equal digit_val) in E.
  rewrite digit_val_char in E by lia.
  change (digit_val NUL) with (- 48) in E. lia.
Qed.

(** With enough fuel for the number of digits, [put_dec] prepends exactly
    the numeral of [n]. *)
Lemma put_dec_spec (fuel : nat) :
  forall (k : nat) (n : Z) (acc : list ascii),
    (k <= fuel)%nat -> (1 <= k)%nat -> 0 <= n < 10 ^ Z.of_nat k ->
    exists ds, put_dec fuel n acc = ds ++ acc /\
               (1 <= length ds <= k)%nat /\
               dec_val ds = n /\
               Forall (fun c => c <> NUL) ds.
Proof.
  induction fuel as [|fuel IH]; intros k n acc Hk Hk1 Hn; [lia|].
  simpl. destruct (Z.eqb_spec (n / 10) 0) as [E|E].
  - exists [digit_char (n mod 10)]. split; [reflexivity|].
    assert (Hm : 0 <= n mod 10 < 10) by (apply Z.mod_pos_bound; lia).
    split; [simpl; lia|]. split.
    + unfold dec_val. simpl. rewrite digit_val_char by lia.
      pose proof (Z.div_mod n 10). lia.
    + constructor; [|constructor]. now apply digit_char_not_NUL.
  - assert (Hn10 : 10 <= n).
    { destruct (Z_lt_le_dec n 10) as [Hlt|]; [|lia].
      rewrite Z.div_small in E by lia. lia. }
    destruct k as [|[|k]]; [lia| simpl in Hn; lia |].
    destruct (IH (S k) (n / 10) (digit_char (n mod 10) :: acc))
      as (ds & Hds & Hlen & Hval & Hnz); [lia|lia| |].
    { split; [apply Z.div_pos; lia|].
      apply Z.div_lt_upper_bound; [lia|].
      replace (Z.of_nat (S (S k))) with (1 + Z.of_nat (S k)) in Hn by lia.
      rewrite Z.pow_add_r in Hn by lia. lia. }
    exists (ds ++ [digit_char (n mod 10)]).
    assert (Hm : 0 <= n mod 10 < 10) by (apply Z.mod_pos_bound; lia).
    split; [rewrite Hds, <- app_assoc; reflexivity|].
    split; [rewrite length_app; simpl; lia|]. split.
    + unfold dec_val. rewrite fold_left_app. simpl.
      fold (dec_val ds). rewrite Hval, digit_val_char by lia.
      pose proof (Z.div_mod n 10). lia.
    + apply Forall_app. split; [exact Hnz|].
      constructor; [|constructor]. now apply digit_char_not_NUL.
Qed.

Lemma fmt_u_spec (k : nat) (n : Z) :
  (1 <= k <= 20)%nat -> 0 <= n < 10 ^ Z.of_nat k ->
  (1 <= length (fmt_u n) <= k)%nat /\ dec_val (fmt_u n) = n /\
  Forall (fun c => c <> NUL) (fmt_u n).
Proof.
  intros Hk Hn. unfold fmt_u.
  destruct (put_dec_spec 20 k n [] ltac:(lia) ltac:(lia) Hn) as (ds & E & H).
  rewrite E, app_nil_r. exact H.
Qed.

(** An [int] prints as at most eleven characters, none of them NUL. *)
Lemma fmt_d_int (z : Z) :
  is_int z -> 1 <= len (fmt_d z) <= 11 /\ Forall (fun c => c <> NUL) (fmt_d z).
Proof.
  unfold is_int, INT_MIN, INT_MAX, fmt_d, len. intros Hz.
  destruct (Z.ltb_spec z 0).
  - destruct (fmt_u_spec 10 (- z)) as (Hl & _ & Hnz); [lia|simpl; lia|].
    split; [simpl length; lia|]. constructor; [|exact Hnz]. discriminate.
  - destruct (fmt_u_spec 10 z) as (Hl & _ & Hnz); [lia|simpl; lia|].
    split; [lia|exact Hnz].
Qed.

(** A small non-negative number prints as one or two characters. *)
Lemma fmt_d_small (z : Z) :
  0 <= z < 100 -> 1 <= len (fmt_d z) <= 2 /\ Forall (fun c => c <> NUL) (fmt_d z).
Proof.
  unfold fmt_d, len. intros Hz.
  destruct (Z.ltb_spec z 0); [lia|].
  destruct (fmt_u_spec 2 z) as (Hl & _ & Hnz); [lia|simpl; lia|].
  split; [lia|exact Hnz].
Qed.

(** The numeral of a non-negative [int] reads back as the number. *)
Lemma fmt_d_value (z : Z) : 0 <= z <= INT_MAX -> dec_val (fmt_d z) = z.
Proof.
  unfold INT_MAX, fmt_d. intros Hz.
  destruct (Z.ltb_spec z 0); [lia|].
  destruct (fmt_u_spec 10 z) as (_ & Hv & _); [lia|simpl; lia|]. exact Hv.
Qed.

(** ** The state operations *)

Lemma bind_Some {A B} (m : M A) (f : A -> M B) (st st' : state) (a : A) :
  m st = Some (a, st') -> bind m f st = f a st'.
Proof. unfold bind. intros ->. reflexivity. Qed.

Lemma set_buf_same (b : strbuf) (st : state) : set_buf b (buf_of b st) st = st.
Proof. destruct b, st; reflexivity. Qed.

Lemma set_buf_twice (b : strbuf) (v w : list ascii) (st : state) :
  set_buf b w (set_buf b v st) = set_buf b w st.
Proof. destruct b; reflexivity. Qed.

Lemma buf_of_set_buf (b : strbuf) (v : list ascii) (st : state) :
  buf_of b (set_buf b v st) = v.
Proof. destruct b; reflexivity. Qed.

Lemma arr_of_set_buf (a : intarr) (b : strbuf) (v : list ascii) (st : state) :
  arr_of a (set_buf b v st) = arr_of a st.
Proof. destruct a, b; reflexivity. Qed.

Lemma with_log_nil (st : state) : with_log st [] = st.
Proof. destruct st; unfold with_log; simpl; rewrite app_nil_r; reflexivity. Qed.

Lemma with_log_twice (st : state) (l1 l2 : list (level * list ascii)) :
  with_log (with_log st l1) l2 = with_log st (l1 ++ l2).
Proof. unfold with_log; simpl; rewrite app_assoc; reflexivity. Qed.

Lemma with_log_set_buf (b : strbuf) (v : list ascii) (st : state)
    (l : list (level * list ascii)) :
  with_log (set_buf b v st) l = set_buf b v (with_log st l).
Proof. destruct b; reflexivity. Qed.

Lemma len_app {A} (l1 l2 : list A) : len (l1 ++ l2) = len l1 + len l2.
Proof. unfold len. rewrite length_app. lia. Qed.

Lemma len_nonneg {A} (l : list A) : 0 <= len l.
Proof. unfold len. lia. Qed.

Lemma wrap32_int (z : Z) : is_int z -> wrap32 z = z.
Proof.
  unfold is_int, INT_MIN, INT_MAX, wrap32. intros Hz.
  rewrite Z.mod_small by lia. lia.
Qed.

Lemma to_size_t_small (z : Z) : 0 <= z <= INT_MAX -> to_size_t z = z.
Proof.
  unfold INT_MAX, to_size_t. intros Hz. apply Z.mod_small. lia.
Qed.

(** ** Stores into a text buffer *)

Lemma splice_step {A} (l : list A) (p : nat) (c : A) (cs : list A) :
  (p < length l)%nat ->
  take (S p) (<[p:=c]> l) ++ cs ++ drop (S p + length cs) (<[p:=c]> l)
  = take p l ++ (c :: cs) ++ drop (p + S (length cs)) l.
Proof.
  intros Hp.
  rewrite (take_S_r _ p c) by (apply list_lookup_insert_eq; lia).
  rewrite take_insert_ge by lia.
  rewrite drop_insert_lt by lia.
  rewrite <- app_assoc. simpl. repeat f_equal. lia.
Qed.

(** Storing [cs] at [p] replaces exactly the bytes [p .. p + |cs|), provided
    they lie inside the buffer. *)
Lemma store_chars_inside (b : strbuf) (cs : list ascii) :
  forall (p : nat) (st : state),
    (p + length cs <= length (buf_of b st))%nat ->
    store_chars b (Z.of_nat p) cs st
    = Some (tt, set_buf b (take p (buf_of b st) ++ cs
                           ++ drop (p + length cs) (buf_of b st)) st).
Proof.
  induction cs as [|c cs IH]; intros p st Hp; simpl in *.
  - rewrite Nat.add_0_r, take_drop, set_buf_same. reflexivity.
  - unfold bind, store_char, len.
    replace ((0 <=? Z.of_nat p) && (Z.of_nat p <? Z.of_nat (length (buf_of b st))))
      with true by (symmetry; apply andb_true_iff; split; lia).
    rewrite Nat2Z.id.
    replace (Z.of_nat p + 1) with (Z.of_nat (S p)) by lia.
    rewrite IH by (rewrite buf_of_set_buf, length_insert; lia).
    rewrite buf_of_set_buf, set_buf_twice.
    rewrite splice_step by lia. reflexivity.
Qed.

Lemma written_length (buf : list ascii) (p : nat) (text : list ascii) :
  (p < length buf)%nat -> length (written buf p text) = length buf.
Proof.
  intros Hp. unfold written. cbv zeta.
  rewrite !length_app, length_cons, length_drop, !length_take. lia.
Qed.

Lemma written_before (buf : list ascii) (p : nat) (text : list ascii) :
  (p <= length buf)%nat -> take p (written buf p text) = take p buf.
Proof.
  intros Hp. unfold written. apply take_app_length'.
  rewrite length_take. lia.
Qed.

Lemma written_whole (buf : list ascii) (p : nat) (text : list ascii) :
  (p + length text < length buf)%nat ->
  written buf p text = take p buf ++ text ++ NUL :: drop (p + length text + 1) buf.
Proof.
  intros Hp. unfold written. cbv zeta. rewrite (take_ge text) by lia. reflexivity.
Qed.

(** [snprintf] at a position inside the buffer, with the size the routine
    passes (what is left of the buffer), stays inside the buffer. *)
Lemma snprintf_inside (b : strbuf) (p : nat) (text : list ascii) (st : state) :
  (p < length (buf_of b st))%nat -> len (buf_of b st) <= INT_MAX ->
  snprintf b (Z.of_nat p) (to_size_t (len (buf_of b st) - Z.of_nat p)) text st
  = Some (len text, set_buf b (written (buf_of b st) p text) st).
Proof.
  intros Hp Hcap. unfold len in *.
  rewrite to_size_t_small by lia. unfold snprintf.
  destruct (Z.ltb_spec INT_MAX (Z.of_nat (length (buf_of b st)) - Z.of_nat p)); [lia|].
  destruct (Z.eqb_spec (Z.of_nat (length (buf_of b st)) - Z.of_nat p) 0); [lia|].
  replace (Z.to_nat (Z.of_nat (length (buf_of b st)) - Z.of_nat p - 1))
    with (length (buf_of b st) - S p)%nat by lia.
  erewrite bind_Some.
  2:{ apply store_chars_inside. rewrite length_app, length_take. simpl. lia. }
  unfold ret, written. cbv zeta. do 3 f_equal.
  rewrite <- app_assoc. simpl. do 3 f_equal.
  f_equal. rewrite length_app. simpl length. lia.
Qed.

(** ** Reading a string back *)

Lemma c_string_terminated (s rest : list ascii) :
  no_NUL s -> c_string (s ++ NUL :: rest) = Some s.
Proof.
  induction 1 as [|c s Hc _ IH]; simpl.
  - reflexivity.
  - destruct (Ascii.eqb_spec c NUL) as [E|_]; [contradiction|].
    rewrite IH. reflexivity.
Qed.

Lemma no_NUL_str_comma : no_NUL (str ", ").
Proof. repeat constructor; discriminate. Qed.

Lemma no_NUL_take (n : nat) (s : list ascii) : no_NUL s -> no_NUL (take n s).
Proof. unfold no_NUL. apply Forall_take. Qed.

Lemma item_text_int (n i x : Z) :
  is_int x -> 1 <= len (item_text n i x) <= 13 /\ no_NUL (item_text n i x).
Proof.
  intros Hx. destruct (fmt_d_int x Hx) as [Hl Hn]. unfold item_text.
  rewrite len_app. destruct (i =? wrap32 (n - 1)).
  - rewrite app_nil_r. change (len []) with 0. split; [lia|exact Hn].
  - change (len (str ", ")) with 2. split; [lia|].
    apply Forall_app. split; [exact Hn|apply no_NUL_str_comma].
Qed.

(** ** The texts that fit *)

Lemma fit_bound (cap : Z) (texts : list (list ascii)) :
  forall acc, len acc < cap -> len (fit cap acc texts).1 < cap.
Proof.
  induction texts as [|t texts IH]; intros acc Hacc; simpl; [exact Hacc|].
  destruct (Z.leb_spec (cap - len acc) (len t)); simpl; [exact Hacc|].
  apply IH. rewrite len_app. lia.
Qed.

Lemma fit_no_NUL (cap : Z) (texts : list (list ascii)) :
  forall acc, no_NUL acc -> Forall no_NUL texts -> no_NUL (fit cap acc texts).1.
Proof.
  induction texts as [|t texts IH]; intros acc Hacc Ht; simpl; [exact Hacc|].
  inversion Ht; subst.
  destruct (cap - len acc <=? len t); simpl; [exact Hacc|].
  apply IH; [apply Forall_app; split; assumption|assumption].
Qed.

(** Nothing is cut exactly when everything fits together with its NUL. *)
Lemma fit_all (cap : Z) (texts : list (list ascii)) :
  forall acc, len acc + len (concat texts) < cap ->
              fit cap acc texts = (acc ++ concat texts, false).
Proof.
  induction texts as [|t texts IH]; intros acc Hacc; simpl in *.
  - rewrite app_nil_r. reflexivity.
  - rewrite len_app in Hacc. pose proof (len_nonneg (concat texts)).
    destruct (Z.leb_spec (cap - len acc) (len t)); [lia|].
    rewrite IH by (rewrite len_app; lia). rewrite <- app_assoc. reflexivity.
Qed.

(** Otherwise a text is cut, and what is kept is a proper prefix. *)
Lemma fit_cut (cap : Z) (texts : list (list ascii)) :
  forall acc, len acc < cap -> cap <= len acc + len (concat texts) ->
              (fit cap acc texts).2 = true /\
              exists rest, rest <> [] /\
                           acc ++ concat texts = (fit cap acc texts).1 ++ rest.
Proof.
  induction texts as [|t texts IH]; intros acc Hacc Hcap; simpl in *.
  - change (len []) with 0 in Hcap. lia.
  - rewrite len_app in Hcap.
    destruct (Z.leb_spec (cap - len acc) (len t)) as [Hle|Hlt]; simpl.
    + split; [reflexivity|]. exists (t ++ concat texts). split; [|reflexivity].
      intros E. apply (f_equal len) in E. rewrite len_app in E.
      change (len []) with 0 in E. pose proof (len_nonneg (concat texts)). lia.
    + destruct (IH (acc ++ t)) as (Hc & rest & Hr & E);
        [rewrite len_app; lia|rewrite len_app; lia|].
      split; [exact Hc|]. exists rest. split; [exact Hr|].
      rewrite <- E, <- app_assoc. reflexivity.
Qed.

Lemma fit_cut_iff (cap : Z) (texts : list (list ascii)) (acc : list ascii) :
  len acc < cap ->
  (fit cap acc texts).2 = true <-> cap <= len acc + len (concat texts).
Proof.
  intros Hacc. split.
  - intros Hc. destruct (Z_lt_le_dec (len acc + len (concat texts)) cap) as [H|H];
      [|exact H].
    rewrite fit_all in Hc by exact H. discriminate.
  - intros H. now apply fit_cut.
Qed.

(** ** The rendering loop *)

(** The loop refines [fit]: started with the text [acc] in the buffer and
    the values [xs] ahead of index [i], it leaves in the buffer the text
    that [fit] computes, returns its length, and logs the warning exactly
    when [fit] cuts.  Every store stays inside the buffer. *)
Lemma render_loop_fit (b : strbuf) (a : intarr) (warning : list ascii) (n : Z) :
  forall (xs : list Z) (i : nat) (acc : list ascii) (st : state),
    (forall j x, xs !! j = Some x -> arr_of a st !! (i + j)%nat = Some x) ->
    Forall is_int xs ->
    Z.of_nat i + len xs <= INT_MAX ->
    len (buf_of b st) <= INT_MAX ->
    len acc < len (buf_of b st) ->
    take (length acc) (buf_of b st) = acc ->
    let r := fit (len (buf_of b st)) acc (item_texts n (Z.of_nat i) xs) in
    exists buf',
      render_loop b a warning n (length xs) (Z.of_nat i) (len acc) st
      = Some (len r.1,
              with_log (set_buf b buf' st)
                       (if r.2 then [(KERN_WARNING, warning)] else [])) /\
      length buf' = length (buf_of b st) /\
      take (length r.1) buf' = r.1.
Proof.
  induction xs as [|x xs IH]; intros i acc st Hload Hint Hi Hcap Hacc Hpre r.
  - exists (buf_of b st). subst r. simpl.
    rewrite set_buf_same, with_log_nil. auto.
  - inversion Hint as [|? ? Hx Hxs]; subst.
    destruct (item_text_int n (Z.of_nat i) x Hx) as [Hlen _].
    assert (Hp : (length acc < length (buf_of b st))%nat) by (unfold len in *; lia).
    assert (Hi' : Z.of_nat i + 1 + len xs <= INT_MAX)
      by (unfold len in *; simpl length in Hi; lia).
    pose proof (len_nonneg xs) as Hxs0. pose proof (len_nonneg acc) as Hacc0.
    subst r. cbn [render_loop item_texts fit length].
    erewrite bind_Some.
    2:{ unfold load. destruct (Z.leb_spec 0 (Z.of_nat i)); [|lia].
        rewrite Nat2Z.id. rewrite <- (Nat.add_0_r i).
        rewrite (Hload 0%nat x eq_refl). reflexivity. }
    erewrite bind_Some by reflexivity.
    erewrite bind_Some by (apply (snprintf_inside b (length acc)); assumption).
    set (t := item_text n (Z.of_nat i) x) in *.
    set (st1 := set_buf b (written (buf_of b st) (length acc) t) st).
    replace (len t <? 0) with false by (symmetry; apply Z.ltb_ge; lia).
    rewrite !to_size_t_small by (unfold INT_MAX, len in *; lia).
    cbn [orb]. fold (len acc).
    destruct (Z.leb_spec (len (buf_of b st) - len acc) (len t)) as [Hle|Hlt].
    + exists (written (buf_of b st) (length acc) t). cbn [fst snd].
      split; [reflexivity|]. split; [apply written_length; exact Hp|].
      rewrite written_before by lia. exact Hpre.
    + assert (Hfit : (length acc + length t < length (buf_of b st))%nat)
        by (unfold len in *; lia).
      assert (Hb1 : buf_of b st1 = written (buf_of b st) (length acc) t)
        by (apply buf_of_set_buf).
      assert (Hl1 : length (buf_of b st1) = length (buf_of b st))
        by (rewrite Hb1; apply written_length; exact Hp).
      rewrite !wrap32_int by (unfold is_int, INT_MIN, INT_MAX in *; lia).
      replace (Z.of_nat i + 1) with (Z.of_nat (S i)) by lia.
      replace (len acc + len t) with (len (acc ++ t)) by apply len_app.
      destruct (IH (S i) (acc ++ t) st1) as (buf' & Hrun & Hlen' & Htake).
      * intros j y Hj. unfold st1. rewrite arr_of_set_buf.
        replace (S i + j)%nat with (i + S j)%nat by lia. apply Hload. exact Hj.
      * exact Hxs.
      * lia.
      * unfold len. rewrite Hl1. exact Hcap.
      * unfold len. rewrite Hl1, length_app. unfold len in Hlt. lia.
      * rewrite Hb1, written_whole by exact Hfit.
        rewrite Hpre, app_assoc. apply take_app_length.
      * assert (Hz1 : len (buf_of b st1) = len (buf_of b st))
          by (unfold len; rewrite Hl1; reflexivity).
        rewrite Hz1 in Hrun, Htake. rewrite Hl1 in Hlen'.
        exists buf'. rewrite Hrun. unfold st1. rewrite set_buf_twice. auto.
Qed.

Lemma buf_of_with_log (b : strbuf) (st : state) (l : list (level * list ascii)) :
  buf_of b (with_log st l) = buf_of b st.
Proof. destruct b; reflexivity. Qed.

Lemma no_NUL_bracket : no_NUL (str "]").
Proof. repeat constructor; discriminate. Qed.

Lemma item_texts_no_NUL (n : Z) (xs : list Z) :
  forall i, Forall is_int xs -> Forall no_NUL (item_texts n i xs).
Proof.
  induction xs as [|x xs IH]; intros i Hint; simpl; [constructor|].
  inversion Hint; subst. constructor; [|apply IH; assumption].
  now apply item_text_int.
Qed.

(** ** A rendering block *)

(** A block whose header fits in the buffer logs what [render_log] says and
    changes nothing but the buffer's contents and the log. *)
Lemma render_run (b : strbuf) (a : intarr) (header warning : list ascii)
    (n : Z) (xs : list Z) (st : state) :
  n = len xs ->
  (forall j x, xs !! j = Some x -> arr_of a st !! j = Some x) ->
  Forall is_int xs ->
  len xs <= INT_MAX ->
  no_NUL header ->
  len header < len (buf_of b st) ->
  len (buf_of b st) <= INT_MAX ->
  exists buf',
    render b a header warning n st
    = Some (tt, with_log (set_buf b buf' st)
                         (render_log (len (buf_of b st)) header warning n xs)) /\
    length buf' = length (buf_of b st).
Proof.
  intros Hn Hload Hint Hlen Hnul Hhdr Hcap.
  assert (Hp : (0 < length (buf_of b st))%nat)
    by (pose proof (len_nonneg header); unfold len in *; lia).
  unfold render. cbv zeta.
  erewrite bind_Some by reflexivity.
  rewrite Z.sub_0_r.
  erewrite bind_Some.
  2:{ pose proof (snprintf_inside b 0 header st Hp Hcap) as H.
      rewrite Z.sub_0_r in H. exact H. }
  set (st1 := set_buf b (written (buf_of b st) 0 header) st).
  assert (Hb1 : buf_of b st1 = written (buf_of b st) 0 header)
    by apply buf_of_set_buf.
  assert (Hl1 : length (buf_of b st1) = length (buf_of b st))
    by (rewrite Hb1; apply written_length; exact Hp).
  assert (Hz1 : len (buf_of b st1) = len (buf_of b st))
    by (unfold len; rewrite Hl1; reflexivity).
  replace (if len header >? 0 then wrap32 (0 + len header) else 0)
    with (len header).
  2:{ pose proof (len_nonneg header).
      destruct (Z.gtb_spec (len header) 0); [|lia].
      rewrite wrap32_int; [lia|unfold is_int, INT_MIN, INT_MAX in *; lia]. }
  destruct (render_loop_fit b a warning n xs 0 header st1)
    as (buf2 & Hrun & Hlen2 & Htake2).
  { intros j x Hj. unfold st1. rewrite arr_of_set_buf. now apply Hload. }
  { exact Hint. }
  { simpl. lia. }
  { rewrite Hz1. exact Hcap. }
  { rewrite Hz1. exact Hhdr. }
  { rewrite Hb1, written_whole by (unfold len in *; simpl; lia).
    rewrite take_0, app_nil_l. apply take_app_length. }
  rewrite Hz1 in Hrun, Htake2. rewrite Hl1 in Hlen2.
  replace (Z.to_nat n) with (length xs) by (unfold len in Hn; lia).
  change (Z.of_nat 0) with 0 in Hrun, Htake2.
  erewrite bind_Some by exact Hrun.
  remember (fit (len (buf_of b st)) header (item_texts n 0 xs)) as r eqn:Er.
  assert (Hfit : len r.1 < len (buf_of b st))
    by (rewrite Er; apply fit_bound; exact Hhdr).
  assert (Hnn : no_NUL r.1).
  { rewrite Er. apply fit_no_NUL; [exact Hnul|].
    apply item_texts_no_NUL. exact Hint. }
  set (st2 := with_log (set_buf b buf2 st1)
                       (if r.2 then [(KERN_WARNING, warning)] else [])).
  assert (Hb2 : buf_of b st2 = buf2)
    by (unfold st2; rewrite buf_of_with_log; apply buf_of_set_buf).
  erewrite bind_Some by reflexivity.
  assert (Hz2 : len (buf_of b st2) = len (buf_of b st))
    by (unfold len; rewrite Hb2, Hlen2; reflexivity).
  erewrite bind_Some.
  2:{ pose proof (snprintf_inside b (length r.1) (str "]") st2) as H.
      fold (len r.1) in H. apply H; [|rewrite Hz2; exact Hcap].
      rewrite Hb2, Hlen2. unfold len in Hfit. lia. }
  set (w := take (length buf2 - S (length r.1)) (str "]")).
  assert (Hb3 : written (buf_of b st2) (length r.1) (str "]")
                = (r.1 ++ w) ++ NUL :: drop (length r.1 + length w + 1) buf2).
  { rewrite Hb2. unfold written. cbv zeta. fold w.
    rewrite Htake2, <- app_assoc. reflexivity. }
  erewrite bind_Some.
  2:{ unfold read_string. rewrite buf_of_set_buf, Hb3.
      rewrite c_string_terminated; [reflexivity|].
      apply Forall_app. split; [exact Hnn|].
      apply no_NUL_take, no_NUL_bracket. }
  unfold printk. rewrite <- Hb3.
  exists (written (buf_of b st2) (length r.1) (str "]")).
  split.
  - unfold st2, st1. rewrite !with_log_set_buf, !set_buf_twice.
    rewrite <- !with_log_set_buf, with_log_twice.
    unfold render_log, rendered. rewrite <- Er.
    destruct r as [acc cut]. cbn [fst snd] in *.
    replace (Z.to_nat (len (buf_of b st) - len acc - 1))
      with (length buf2 - S (length acc))%nat by (unfold len; lia).
    reflexivity.
  - rewrite written_length; rewrite Hb2; [exact Hlen2|].
    rewrite Hlen2. unfold len in Hfit. lia.
Qed.

(** ** The two scans *)

Lemma load_at (a : intarr) (i : nat) (x : Z) (st : state) :
  arr_of a st !! i = Some x -> load a (Z.of_nat i) st = Some (x, st).
Proof.
  intros H. unfold load. destruct (Z.leb_spec 0 (Z.of_nat i)); [|lia].
  rewrite Nat2Z.id, H. reflexivity.
Qed.

Lemma upd_max_val_same (st : state) : upd_max_val (max_val st) st = st.
Proof. destruct st; reflexivity. Qed.

(** The first scan leaves the running maximum of the elements it visits. *)
Lemma scan_max_run :
  forall (xs : list Z) (i : nat) (st : state),
    (forall j x, xs !! j = Some x -> input_array st !! (i + j)%nat = Some x) ->
    Z.of_nat i + len xs <= INT_MAX ->
    scan_max (length xs) (Z.of_nat i) st
    = Some (tt, upd_max_val (running_max (max_val st) xs) st).
Proof.
  induction xs as [|x xs IH]; intros i st Hload Hi.
  - simpl. rewrite upd_max_val_same. reflexivity.
  - assert (Hi' : Z.of_nat (S i) + len xs <= INT_MAX)
      by (unfold len in *; simpl length in Hi; lia).
    pose proof (len_nonneg xs).
    cbn [scan_max length].
    erewrite bind_Some
      by (apply load_at; rewrite <- (Nat.add_0_r i); apply (Hload 0%nat); reflexivity).
    erewrite bind_Some by reflexivity.
    rewrite wrap32_int by (unfold is_int, INT_MIN, INT_MAX in *; lia).
    replace (Z.of_nat i + 1) with (Z.of_nat (S i)) by lia.
    unfold running_max. cbn [fold_left]. fold (running_max (if x >? max_val st then x else max_val st) xs).
    destruct (x >? max_val st).
    + erewrite bind_Some by reflexivity.
      rewrite IH; [reflexivity| |exact Hi'].
      intros j y Hj. cbn [upd_max_val input_array].
      replace (S i + j)%nat with (i + S j)%nat by lia. now apply Hload.
    + erewrite bind_Some by reflexivity.
      rewrite IH; [reflexivity| |exact Hi'].
      intros j y Hj. replace (S i + j)%nat with (i + S j)%nat by lia. now apply Hload.
Qed.

Lemma positions_length (m : Z) (xs : list Z) :
  forall i, (length (positions m i xs) <= length xs)%nat.
Proof.
  induction xs as [|x xs IH]; intros i; simpl; [lia|].
  destruct (x =? m); simpl; specialize (IH (i + 1)); lia.
Qed.

(** The second scan, started with room for every element it visits, stores
    the positions of the maximum behind the indices already collected and
    never takes the branch of line 70. *)
Lemma collect_indices_run :
  forall (xs : list Z) (i : nat) (st : state),
    (forall j x, xs !! j = Some x -> input_array st !! (i + j)%nat = Some x) ->
    Z.of_nat i + len xs <= INT_MAX ->
    0 <= count st ->
    count st + len xs <= MAX_ARRAY_SIZE ->
    len (max_indices st) = MAX_ARRAY_SIZE ->
    let ps := positions (max_val st) (Z.of_nat i) xs in
    let c := Z.to_nat (count st) in
    collect_indices (length xs) (Z.of_nat i) st
    = Some (tt, upd_count (count st + len ps)
                  (upd_indices (take c (max_indices st) ++ ps
                                ++ drop (c + length ps) (max_indices st)) st)).
Proof.
  induction xs as [|x xs IH]; intros i st Hload Hi Hc0 Hc Hmi ps c.
  - subst ps c. simpl. unfold len. simpl. rewrite Z.add_0_r, Nat.add_0_r, take_drop.
    destruct st; reflexivity.
  - assert (Hi' : Z.of_nat (S i) + len xs <= INT_MAX)
      by (unfold len in *; simpl length in Hi; lia).
    assert (Hc' : count st + 1 + len xs <= MAX_ARRAY_SIZE)
      by (unfold len in *; simpl length in Hc; lia).
    pose proof (len_nonneg xs).
    subst ps. cbn [collect_indices length positions].
    erewrite bind_Some
      by (apply load_at; rewrite <- (Nat.add_0_r i); apply (Hload 0%nat); reflexivity).
    erewrite bind_Some by reflexivity.
    rewrite !(wrap32_int (Z.of_nat i + 1))
      by (unfold is_int, INT_MIN, INT_MAX in *; lia).
    replace (Z.of_nat i + 1) with (Z.of_nat (S i)) by lia.
    destruct (x =? max_val st).
    + erewrite bind_Some by reflexivity.
      destruct (Z.ltb_spec (count st) MAX_ARRAY_SIZE); [|lia].
      erewrite bind_Some.
      2:{ unfold store_index. rewrite Hmi.
          replace ((0 <=? count st) && (count st <? MAX_ARRAY_SIZE)) with true
            by (symmetry; apply andb_true_iff; split; lia).
          reflexivity. }
      erewrite bind_Some by reflexivity.
      rewrite wrap32_int by (unfold is_int, INT_MIN, INT_MAX, MAX_ARRAY_SIZE in *; lia).
      rewrite IH; cbn [upd_count upd_indices input_array count max_indices max_val].
      * do 2 f_equal. unfold upd_count, upd_indices. cbn.
        fold c. replace (Z.to_nat (count st + 1)) with (S c) by lia.
        rewrite splice_step by (unfold len in Hmi; unfold MAX_ARRAY_SIZE in *; lia).
        unfold len. simpl length. f_equal. lia.
      * intros j y Hj. replace (S i + j)%nat with (i + S j)%nat by lia. now apply Hload.
      * exact Hi'.
      * lia.
      * lia.
      * unfold len in *. rewrite length_insert. exact Hmi.
    + rewrite IH; [reflexivity| |exact Hi'|exact Hc0|lia|exact Hmi].
      intros j y Hj. replace (S i + j)%nat with (i + S j)%nat by lia. now apply Hload.
Qed.

(** ** The running maximum and the positions of a value *)

Lemma running_max_seed (xs : list Z) : forall m, m <= running_max m xs.
Proof.
  unfold running_max. induction xs as [|x xs IH]; intros m; simpl; [lia|].
  specialize (IH (if x >? m then x else m)).
  destruct (Z.gtb_spec x m); lia.
Qed.

Lemma running_max_upper (xs : list Z) :
  forall m x, x ∈ xs -> x <= running_max m xs.
Proof.
  induction xs as [|y xs IH]; intros m x Hx; [inversion Hx|].
  change (running_max m (y :: xs))
    with (running_max (if y >? m then y else m) xs).
  apply elem_of_cons in Hx as [->|Hx]; [|now apply IH].
  pose proof (running_max_seed xs (if y >? m then y else m)).
  destruct (Z.gtb_spec y m); lia.
Qed.

Lemma running_max_seed_or_elem (xs : list Z) :
  forall m, running_max m xs = m \/ running_max m xs ∈ xs.
Proof.
  induction xs as [|y xs IH]; intros m; [left; reflexivity|].
  change (running_max m (y :: xs))
    with (running_max (if y >? m then y else m) xs).
  destruct (IH (if y >? m then y else m)) as [E|E].
  - rewrite E. destruct (y >? m); [right; left|left; reflexivity].
  - right. now right.
Qed.

(** Seeded at [INT_MIN], the running maximum of a non-empty list of [int]s
    is one of its elements: an element equal to the seed is the maximum
    although it never replaces the seed. *)
Lemma running_max_elem (xs : list Z) :
  xs <> [] -> Forall is_int xs -> running_max INT_MIN xs ∈ xs.
Proof.
  intros Hne Hint.
  destruct (running_max_seed_or_elem xs INT_MIN) as [E|E]; [|exact E].
  destruct xs as [|x xs]; [contradiction|].
  assert (Hx : x <= running_max INT_MIN (x :: xs))
    by (apply running_max_upper; left).
  inversion Hint as [|? ? [Hlo _] _]; subst.
  rewrite E in *. replace INT_MIN with x by lia. left.
Qed.

Lemma positions_elem (m : Z) (xs : list Z) :
  forall i p, p ∈ positions m i xs <->
              exists j : nat, p = i + Z.of_nat j /\ xs !! j = Some m.
Proof.
  induction xs as [|x xs IH]; intros i p; simpl.
  - split; [intros H; inversion H|intros (j & _ & H); discriminate].
  - assert (Hrest : p ∈ positions m (i + 1) xs <->
                    exists j : nat, p = i + Z.of_nat (S j) /\ xs !! j = Some m).
    { rewrite IH. split; intros (j & -> & H); exists j; (split; [lia|exact H]). }
    destruct (Z.eqb_spec x m) as [->|Hne].
    + rewrite elem_of_cons, Hrest. split.
      * intros [->|(j & -> & H)]; [exists 0%nat|exists (S j)]; (split; [lia|exact H || reflexivity]).
      * intros ([|j] & -> & H); [left; lia|right; exists j; auto].
    + rewrite Hrest. split.
      * intros (j & -> & H). exists (S j). auto.
      * intros ([|j] & -> & H); [simpl in H; congruence|exists j; auto].
Qed.

Lemma positions_sorted (m : Z) (xs : list Z) :
  forall i, StronglySorted Z.lt (positions m i xs).
Proof.
  induction xs as [|x xs IH]; intros i; simpl; [constructor|].
  destruct (x =? m); [|apply IH].
  constructor; [apply IH|].
  apply Forall_forall. intros p Hp.
  apply positions_elem in Hp as (j & -> & _). lia.
Qed.

Lemma positions_nonempty (m : Z) (xs : list Z) (i : Z) :
  m ∈ xs -> positions m i xs <> [].
Proof.
  intros Hm E. apply list_elem_of_lookup in Hm as [j Hj].
  assert (H : i + Z.of_nat j ∈ positions m i xs)
    by (apply positions_elem; exists j; auto).
  rewrite E in H. inversion H.
Qed.

Lemma positions_range (m : Z) (xs : list Z) (i p : Z) :
  p ∈ positions m i xs -> i <= p < i + len xs.
Proof.
  intros Hp. apply positions_elem in Hp as (j & -> & Hj).
  apply lookup_lt_Some in Hj. unfold len. lia.
Qed.

(** ** The headers and the elements *)

Lemma array_header_fits (n : Z) :
  1 <= n <= MAX_ARRAY_SIZE ->
  len (array_header n) <= 25 /\ no_NUL (array_header n).
Proof.
  unfold MAX_ARRAY_SIZE. intros Hn.
  destruct (fmt_d_small n) as [Hl Hz]; [lia|].
  unfold array_header. rewrite !len_app.
  change (len (str "Received ")) with 9.
  change (len (str " element(s): [")) with 14.
  split; [lia|].
  apply Forall_app. split; [repeat constructor; discriminate|].
  apply Forall_app. split; [exact Hz|repeat constructor; discriminate].
Qed.

Lemma indices_header_fits :
  len indices_header = 25 /\ no_NUL indices_header.
Proof. split; [reflexivity|repeat constructor; discriminate]. Qed.

Section Elements.
Context (st : state) (Hentry : entry_state st) (Hvalid : valid_count st).

Lemma elements_length : length (elements st) = Z.to_nat (num_elements st).
Proof.
  destruct Hentry as [Hl _ _ _]. unfold valid_count, len in *.
  unfold elements. rewrite length_take. lia.
Qed.

Lemma elements_len : len (elements st) = num_elements st.
Proof.
  unfold len. rewrite elements_length. unfold valid_count in Hvalid. lia.
Qed.

Lemma elements_int : Forall is_int (elements st).
Proof. apply Forall_take. now destruct Hentry. Qed.

Lemma elements_nonempty : elements st <> [].
Proof.
  intros E. pose proof elements_len as H. rewrite E in H.
  unfold valid_count in Hvalid. change (len []) with 0 in H. lia.
Qed.

Lemma elements_lookup (j : nat) (x : Z) :
  elements st !! j = Some x -> input_array st !! j = Some x.
Proof. unfold elements. intros H. apply lookup_take_Some in H. tauto. Qed.

Lemma result_value_elem : result_value st ∈ elements st.
Proof. apply running_max_elem; [apply elements_nonempty|apply elements_int]. Qed.

Lemma result_indices_nonempty : result_indices st <> [].
Proof. apply positions_nonempty, result_value_elem. Qed.

Lemma result_indices_range (p : Z) :
  p ∈ result_indices st -> 0 <= p < num_elements st.
Proof.
  intros Hp. apply positions_range in Hp. rewrite elements_len in Hp. lia.
Qed.

Lemma result_indices_len : 1 <= len (result_indices st) <= num_elements st.
Proof.
  pose proof (positions_length (result_value st) (elements st) 0) as H.
  fold (result_indices st) in H. rewrite elements_length in H.
  pose proof result_indices_nonempty as Hne.
  unfold valid_count in Hvalid. unfold len.
  destruct (result_indices st); [contradiction|]. simpl length in *. lia.
Qed.

Lemma result_indices_int : Forall is_int (result_indices st).
Proof.
  apply Forall_forall. intros p Hp. apply result_indices_range in Hp.
  unfold valid_count, MAX_ARRAY_SIZE in Hvalid.
  unfold is_int, INT_MIN, INT_MAX. lia.
Qed.
End Elements.

(** ** The whole routine on a valid element count *)

Ltac norm_state :=
  unfold upd_max_val, upd_count, upd_indices, with_log, set_buf;
  cbn [input_array num_elements max_val count max_indices array_str
       indices_str klog buf_of arr_of].

(** With a valid element count, [find_max_init] returns 0 without a fault,
    leaves the maximum in [max_val], the positions of the maximum in the
    first [count] slots of [max_indices], adds [run_log] to the log, and
    leaves the parameters and the capacities of the buffers as they were. *)
Lemma find_max_init_run (st : state) :
  entry_state st -> valid_count st -> buffers_hold_headers st ->
  exists abuf ibuf,
    find_max_init st
    = Some (0, State (input_array st) (num_elements st)
                     (result_value st) (len (result_indices st))
                     (result_indices st
                      ++ drop (length (result_indices st)) (max_indices st))
                     abuf ibuf (klog st ++ run_log st)) /\
    length abuf = length (array_str st) /\
    length ibuf = length (indices_str st).
Proof.
  intros Hentry Hvalid [[Ha1 Ha2] [Hi1 Hi2]].
  pose proof (elements_length st Hentry Hvalid) as Hxl.
  pose proof (elements_len st Hentry Hvalid) as Hxz.
  pose proof (elements_int st Hentry) as Hxi.
  pose proof (result_indices_len st Hentry Hvalid) as Hpl.
  pose proof (result_indices_int st Hentry Hvalid) as Hpi.
  pose proof (elements_lookup st) as Hxlook.
  unfold run_log. unfold result_indices in *. unfold result_value in *.
  set (xs := elements st) in *.
  set (ps := positions (running_max INT_MIN xs) 0 xs) in *.
  destruct Hentry as [Hal Haint Hnint Hml].
  destruct (array_header_fits (num_elements st) Hvalid) as [Hhl Hhz].
  destruct indices_header_fits as [Hil Hiz].
  unfold valid_count, MAX_ARRAY_SIZE in *.
  destruct st as [arr n mv c mi abuf ibuf lg].
  cbn [input_array num_elements max_val count max_indices array_str
       indices_str klog] in *.
  unfold find_max_init.
  do 4 (erewrite bind_Some by reflexivity). norm_state.
  destruct (Z.leb_spec n 0); [lia|].
  destruct (Z.gtb_spec n MAX_ARRAY_SIZE); [unfold MAX_ARRAY_SIZE in *; lia|].
  (* the array rendering *)
  match goal with |- context [bind (render _ _ _ _ _) _ ?s] => set (st0 := s) end.
  destruct (render_run ARRAY_STR INPUT_ARRAY (array_header n) array_warning n xs st0)
    as (abuf' & Hr & Hl); subst st0; norm_state;
    [lia|auto|auto|unfold INT_MAX; lia|auto|lia|lia|].
  erewrite bind_Some by exact Hr. clear Hr. norm_state.
  (* the first scan *)
  replace (Z.to_nat n) with (length xs) by lia.
  erewrite bind_Some.
  2:{ apply (scan_max_run xs 0); norm_state; [auto|unfold INT_MAX; lia]. }
  do 3 (erewrite bind_Some by reflexivity). norm_state.
  (* the second scan *)
  erewrite bind_Some.
  2:{ apply (collect_indices_run xs 0); norm_state;
      [auto|unfold INT_MAX; lia|lia|unfold MAX_ARRAY_SIZE; lia|exact Hml]. }
  norm_state.
  change (Z.of_nat 0) with 0. change (Z.to_nat 0) with 0%nat.
  rewrite take_0, Nat.add_0_l, Z.add_0_l, app_nil_l. fold ps.
  unfold report_indices.
  erewrite bind_Some by reflexivity. norm_state.
  destruct (Z.gtb_spec (len ps) 0); [|lia].
  (* the indices rendering *)
  match goal with |- context [bind (render _ _ _ _ _) _ ?s] => set (st1 := s) end.
  destruct (render_run INDICES_STR MAX_INDICES indices_header indices_warning
                       (len ps) ps st1)
    as (ibuf' & Hr & Hl'); subst st1; norm_state;
    [auto| |auto|unfold INT_MAX; lia|auto|lia|lia|].
  { intros j x Hj. apply lookup_app_l_Some. exact Hj. }
  erewrite bind_Some by exact Hr. clear Hr. norm_state.
  exists abuf', ibuf'. split; [|auto].
  unfold ret. do 3 f_equal.
  rewrite <- !app_assoc. reflexivity.
Qed.

Lemma declared_buffers_hold (st : state) :
  declared_buffers st -> buffers_hold_headers st.
Proof.
  unfold declared_buffers, buffers_hold_headers, INT_MAX. intros [-> ->]. lia.
Qed.

(** The run of [find_max_init], field by field. *)
Lemma find_max_init_result (st : state) :
  entry_state st -> valid_count st -> buffers_hold_headers st ->
  exists st',
    find_max_init st = Some (0, st') /\
    input_array st' = input_array st /\
    num_elements st' = num_elements st /\
    max_val st' = result_value st /\
    count st' = len (result_indices st) /\
    collected st' = result_indices st /\
    len (max_indices st') = MAX_ARRAY_SIZE /\
    len (array_str st') = len (array_str st) /\
    len (indices_str st') = len (indices_str st) /\
    klog st' = klog st ++ run_log st.
Proof.
  intros Hentry Hvalid Hbuf.
  destruct (find_max_init_run st Hentry Hvalid Hbuf) as (abuf & ibuf & Hrun & Ha & Hi).
  pose proof (result_indices_len st Hentry Hvalid) as Hpl.
  eexists. split; [exact Hrun|].
  unfold collected, len in *. cbn [input_array num_elements max_val count max_indices
                                   array_str indices_str klog].
  rewrite Nat2Z.id, take_app_length, Ha, Hi.
  repeat split; try reflexivity.
  destruct Hentry as [_ _ _ Hml]. unfold valid_count, MAX_ARRAY_SIZE, len in *.
  rewrite length_app, length_drop. lia.
Qed.

(** With an element count outside 1..16 the routine logs an error and
    returns [-EINVAL] before it touches anything but its two scalars. *)
Lemma find_max_init_rejects (st : state) :
  num_elements st <= 0 \/ num_elements st > MAX_ARRAY_SIZE ->
  exists msg,
    find_max_init st
    = Some (- EINVAL,
            with_log (upd_count 0 (upd_max_val INT_MIN st))
                     [init_record; (KERN_ERR, msg)]).
Proof.
  intros Hn. unfold find_max_init.
  do 4 (erewrite bind_Some by reflexivity). norm_state.
  destruct (Z.leb_spec (num_elements st) 0).
  - eexists. erewrite bind_Some by reflexivity. unfold ret. norm_state.
    rewrite <- app_assoc. reflexivity.
  - destruct (Z.gtb_spec (num_elements st) MAX_ARRAY_SIZE); [|lia].
    eexists. erewrite bind_Some by reflexivity. unfold ret. norm_state.
    rewrite <- app_assoc. reflexivity.
Qed.

(** Every record of [run_log] is informational or one of the two
    truncation warnings. *)
Lemma render_log_records (cap : Z) (header warning : list ascii) (n : Z)
    (xs : list Z) (r : level * list ascii) :
  r ∈ render_log cap header warning n xs ->
  r.1 = KERN_INFO \/ (r = (KERN_WARNING, warning) /\ (rendered cap header n xs).2 = true).
Proof.
  unfold render_log. destruct (rendered cap header n xs) as [line [|]]; simpl; intros H.
  - apply elem_of_cons in H as [->|H]; [right; auto|].
    apply list_elem_of_singleton in H as ->. left. reflexivity.
  - apply list_elem_of_singleton in H as ->. left. reflexivity.
Qed.

Lemma run_log_records (st : state) (r : level * list ascii) :
  r ∈ run_log st ->
  r.1 = KERN_INFO \/ r = (KERN_WARNING, array_warning)
  \/ r = (KERN_WARNING, indices_warning).
Proof.
  unfold run_log. intros H.
  apply elem_of_cons in H as [->|H]; [left; reflexivity|].
  apply elem_of_app in H as [H|H].
  - apply render_log_records in H as [H|[H _]]; auto.
  - apply elem_of_cons in H as [->|H]; [left; reflexivity|].
    apply render_log_records in H as [H|[H _]]; auto.
Qed.

(** ** How long the rendered texts are *)

(** When every number prints in at most [w] characters, the elements with
    their separators take at most [w + 2] characters each, less the
    separator that the last element does not have. *)
Lemma item_texts_len (w n : Z) (xs : list Z) :
  forall i,
    Forall (fun x => len (fmt_d x) <= w) xs ->
    1 <= n <= INT_MAX -> i + len xs = n ->
    len (concat (item_texts n i xs)) + (if xs is [] then 0 else 2)
    <= (w + 2) * len xs.
Proof.
  intros i Hw Hn. revert i.
  assert (Hwrap : wrap32 (n - 1) = n - 1)
    by (apply wrap32_int; unfold is_int, INT_MIN, INT_MAX in *; lia).
  induction Hw as [|x xs Hx Hxs IH]; intros i Hi; [unfold len; simpl; lia|].
  cbn [item_texts concat]. rewrite len_app. unfold item_text. rewrite len_app, Hwrap.
  unfold len in Hi, Hx |- *. simpl length in *.
  specialize (IH (i + 1) ltac:(unfold len; lia)). unfold len in IH.
  destruct xs as [|y ys].
  - simpl in *. destruct (Z.eqb_spec i (n - 1)); [simpl; lia|lia].
  - simpl length in *. destruct (Z.eqb_spec i (n - 1)); [lia|].
    cbn [length]. lia.
Qed.

Lemma item_texts_len_nonempty (w n : Z) (xs : list Z) :
  xs <> [] ->
  Forall (fun x => len (fmt_d x) <= w) xs ->
  1 <= n <= INT_MAX -> len xs = n ->
  len (concat (item_texts n 0 xs)) + 2 <= (w + 2) * len xs.
Proof.
  intros Hne Hw Hn Hl.
  pose proof (item_texts_len w n xs 0 Hw Hn ltac:(lia)) as H.
  destruct xs; [contradiction|exact H].
Qed.

Lemma rendered_full (cap : Z) (header : list ascii) (n : Z) (xs : list Z) :
  len (full_text header n xs) < cap ->
  rendered cap header n xs = (full_text header n xs, false).
Proof.
  unfold full_text, rendered. rewrite !len_app. change (len (str "]")) with 1.
  intros H. rewrite fit_all by lia. rewrite len_app.
  rewrite take_ge; [rewrite <- app_assoc; reflexivity|].
  change (length (str "]")) with 1%nat. lia.
Qed.

(** The logged line always leaves room for its NUL. *)
Lemma rendered_bound (cap : Z) (header : list ascii) (n : Z) (xs : list Z) :
  len header < cap -> len (rendered cap header n xs).1 < cap.
Proof.
  intros H. unfold rendered.
  pose proof (fit_bound cap (item_texts n 0 xs) header H) as Hb.
  destruct (fit cap header (item_texts n 0 xs)) as [acc cut]. cbn [fst snd] in *.
  rewrite len_app. unfold len at 2. rewrite length_take. lia.
Qed.

(** An element is cut exactly when the header and the elements, without the
    closing bracket, need more than the buffer; the logged line is then a
    proper prefix of that text, followed by the bracket if a byte is left
    for it. *)
Lemma rendered_cut (cap : Z) (header : list ascii) (n : Z) (xs : list Z) :
  len header < cap ->
  ((rendered cap header n xs).2 = true
   <-> cap <= len (header ++ concat (item_texts n 0 xs))) /\
  ((rendered cap header n xs).2 = true ->
   exists kept rest,
     (rendered cap header n xs).1
     = kept ++ take (Z.to_nat (cap - len kept - 1)) (str "]") /\
     rest <> [] /\
     header ++ concat (item_texts n 0 xs) = kept ++ rest).
Proof.
  intros H. unfold rendered. rewrite len_app.
  pose proof (fit_cut_iff cap (item_texts n 0 xs) header H) as Hiff.
  pose proof (fit_cut cap (item_texts n 0 xs) header H) as Hcut.
  destruct (fit cap header (item_texts n 0 xs)) as [acc cut]. cbn [fst snd] in *.
  split; [exact Hiff|]. intros Hc. apply Hiff in Hc.
  destruct (Hcut Hc) as (_ & rest & Hr & E).
  exists acc, rest. auto.
Qed.

(** ** The length of the whole texts *)

(** The whole texts fit in 256 bytes. *)
Lemma array_text_len (st : state) :
  entry_state st -> valid_count st -> len (array_text st) + 1 <= 233.
Proof.
  intros Hentry Hvalid.
  destruct (array_header_fits (num_elements st) Hvalid) as [Hh _].
  pose proof (elements_len st Hentry Hvalid) as Hxl.
  pose proof (item_texts_len_nonempty 11 (num_elements st) (elements st)
                (elements_nonempty st Hentry Hvalid)) as Hit.
  unfold array_text, full_text. rewrite !len_app. change (len (str "]")) with 1.
  unfold valid_count, MAX_ARRAY_SIZE, INT_MAX in *.
  assert (H : len (concat (item_texts (num_elements st) 0 (elements st))) + 2
              <= (11 + 2) * len (elements st)).
  { apply Hit; [|lia|lia].
    eapply Forall_impl; [apply (elements_int st Hentry)|].
    intros z Hz. now apply fmt_d_int. }
  lia.
Qed.

Lemma indices_text_len (st : state) :
  entry_state st -> valid_count st -> len (indices_text st) + 1 <= 89.
Proof.
  intros Hentry Hvalid.
  pose proof (result_indices_len st Hentry Hvalid) as Hpl.
  pose proof (item_texts_len_nonempty 2 (len (result_indices st)) (result_indices st)
                (result_indices_nonempty st Hentry Hvalid)) as Hit.
  unfold indices_text, full_text. rewrite !len_app. change (len (str "]")) with 1.
  change (len indices_header) with 25.
  unfold valid_count, MAX_ARRAY_SIZE, INT_MAX in *.
  assert (H : len (concat (item_texts (len (result_indices st)) 0 (result_indices st))) + 2
              <= (2 + 2) * len (result_indices st)).
  { apply Hit; [|lia|lia].
    apply Forall_forall. intros p Hp.
    apply (result_indices_range st Hentry Hvalid) in Hp.
    apply fmt_d_small. unfold valid_count, MAX_ARRAY_SIZE in *. lia. }
  lia.
Qed.

(** ** Truncation *)

Lemma store_char_outside (b : strbuf) (pos : Z) (c : ascii) (st : state) :
  ~ (0 <= pos < len (buf_of b st)) -> store_char b pos c st = None.
Proof.
  intros H. unfold store_char.
  destruct (Z.leb_spec 0 pos); destruct (Z.ltb_spec pos (len (buf_of b st)));
    simpl; try reflexivity. lia.
Qed.

Lemma render_log_truncates (cap : Z) (header warning : list ascii) (n : Z)
    (xs : list Z) :
  len header < cap ->
  truncates_within cap warning (header ++ concat (item_texts n 0 xs))
                   (rendered cap header n xs).1
                   (render_log cap header warning n xs).
Proof.
  intros H. pose proof (rendered_bound cap header n xs H) as Hb.
  destruct (rendered_cut cap header n xs H) as [Hiff Hcut].
  unfold truncates_within, render_log.
  destruct (rendered cap header n xs) as [line cut]. cbn [fst snd] in *.
  split; [apply elem_of_app; right; left|]. split; [exact Hb|].
  intros Hc. apply Hiff in Hc. subst cut. split; [left|]. now apply Hcut.
Qed.

Lemma truncates_within_mono (cap : Z) (warning body line : list ascii)
    (l l' : list (level * list ascii)) :
  (forall r, r ∈ l -> r ∈ l') ->
  truncates_within cap warning body line l ->
  truncates_within cap warning body line l'.
Proof.
  intros Hsub (Hline & Hb & Hcut). split; [auto|]. split; [exact Hb|].
  intros Hc. destruct (Hcut Hc) as [Hw Hk]. auto.
Qed.

Lemma run_log_truncates (st : state) :
  entry_state st -> valid_count st -> buffers_hold_headers st ->
  truncates_within (len (array_str st)) array_warning (array_body st)
                   (array_line st) (run_log st) /\
  truncates_within (len (indices_str st)) indices_warning (indices_body st)
                   (indices_line st) (run_log st).
Proof.
  intros Hentry Hvalid [[Ha _] [Hi _]].
  destruct (array_header_fits (num_elements st) Hvalid) as [Hh _].
  split.
  - eapply truncates_within_mono; [|apply render_log_truncates; lia].
    intros r Hr. unfold run_log. right. apply elem_of_app. left. exact Hr.
  - eapply truncates_within_mono;
      [|apply render_log_truncates; change (len indices_header) with 25; lia].
    intros r Hr. unfold run_log. right. apply elem_of_app. right. right. exact Hr.
Qed.

(** ** A full index storage *)

(** The branch of line 70: when an element equals the maximum and the
    index storage is full, the scan logs the warning and stops, storing
    nothing. *)
Lemma collect_indices_full (k i : nat) (st : state) :
  input_array st !! i = Some (max_val st) ->
  MAX_ARRAY_SIZE <= count st ->
  collect_indices (S k) (Z.of_nat i) st
  = Some (tt, with_log st [(KERN_WARNING, overflow_warning)]).
Proof.
  intros Hx Hc. cbn [collect_indices].
  erewrite bind_Some by (apply (load_at INPUT_ARRAY); exact Hx).
  erewrite bind_Some by reflexivity.
  rewrite Z.eqb_refl.
  erewrite bind_Some by reflexivity.
  destruct (Z.ltb_spec (count st) MAX_ARRAY_SIZE); [lia|]. reflexivity.
Qed.

(** From a full index storage the rest of the routine still reports the
    sixteen stored indices and returns 0. *)
Lemma full_storage_report (k i : nat) (st : state) :
  input_array st !! i = Some (max_val st) ->
  count st = MAX_ARRAY_SIZE ->
  len (max_indices st) = MAX_ARRAY_SIZE ->
  Forall is_int (max_indices st) ->
  26 <= len (indices_str st) <= INT_MAX ->
  exists ibuf,
    (collect_indices (S k) (Z.of_nat i) ;; report_indices) st
    = Some (0, with_log (set_buf INDICES_STR ibuf st)
                 ((KERN_WARNING, overflow_warning)
                  :: render_log (len (indices_str st)) indices_header
                                indices_warning MAX_ARRAY_SIZE (max_indices st))) /\
    length ibuf = length (indices_str st).
Proof.
  intros Hx Hc Hl Hint Hcap.
  erewrite bind_Some by (apply collect_indices_full; [exact Hx|lia]).
  unfold report_indices.
  erewrite bind_Some by reflexivity.
  cbn [with_log count]. rewrite Hc. change (MAX_ARRAY_SIZE >? 0) with true. cbv iota.
  destruct (render_run INDICES_STR MAX_INDICES indices_header indices_warning
                       MAX_ARRAY_SIZE (max_indices st)
                       (with_log st [(KERN_WARNING, overflow_warning)]))
    as (ibuf & Hr & Hlen); cbn [with_log buf_of arr_of max_indices indices_str];
    [auto|auto|exact Hint|unfold INT_MAX, MAX_ARRAY_SIZE in *; lia
    |apply indices_header_fits|change (len indices_header) with 25; lia|lia|].
  erewrite bind_Some by exact Hr.
  exists ibuf. split; [|exact Hlen].
  unfold ret. rewrite <- with_log_set_buf, with_log_twice. reflexivity.
Qed.

(** ** The claims *)

(** The example states are entry states. *)
Lemma loaded_with_entry (cap : nat) (xs : list Z) :
  (length xs <=? 16)%nat
  && forallb (fun z => (INT_MIN <=? z) && (z <=? INT_MAX)) xs = true ->
  entry_state (loaded_with cap xs).
Proof.
  intros H. apply andb_true_iff in H as [Hl Hx]. apply Nat.leb_le in Hl.
  split; cbn [loaded_with input_array num_elements max_indices].
  - unfold len, MAX_ARRAY_SIZE. rewrite length_app, length_replicate. lia.
  - apply Forall_app. split.
    + apply Forall_forall. intros z Hz. apply list_elem_of_In in Hz.
      rewrite forallb_forall in Hx. specialize (Hx z Hz).
      apply andb_true_iff in Hx as [H1 H2]. unfold is_int. lia.
    + apply Forall_replicate. unfold is_int, INT_MIN, INT_MAX. lia.
  - unfold is_int, INT_MIN, INT_MAX, len. lia.
  - reflexivity.
Qed.

Lemma loaded_entry (xs : list Z) :
  (length xs <=? 16)%nat
  && forallb (fun z => (INT_MIN <=? z) && (z <=? INT_MAX)) xs = true ->
  entry_state (loaded xs).
Proof. apply (loaded_with_entry 256). Qed.

Ltac entry_of_loaded :=
  first [apply loaded_entry | apply loaded_with_entry]; reflexivity.

(** C1.  For every valid input of length 1 to 16, every index that
    [find_max_init] collects points at an element equal to the value it
    found, and no element of the input exceeds that value. *)
Theorem indices_point_at_maximum (st : state) :
  entry_state st -> declared_buffers st -> valid_count st ->
  exists st',
    find_max_init st = Some (0, st') /\
    (forall idx, idx ∈ collected st' ->
       0 <= idx < num_elements st /\
       input_array st !! Z.to_nat idx = Some (max_val st')) /\
    (forall (i : nat) (x : Z),
       Z.of_nat i < num_elements st -> input_array st !! i = Some x ->
       x <= max_val st').
Proof.
  intros Hentry Hbuf Hvalid.
  destruct (find_max_init_result st Hentry Hvalid (declared_buffers_hold st Hbuf))
    as (st' & Hrun & _ & _ & Hm & _ & Hc & _).
  exists st'. split; [exact Hrun|]. rewrite Hc, Hm. split.
  - intros idx Hidx. split; [now apply result_indices_range|].
    apply positions_elem in Hidx as (j & -> & Hj).
    apply elements_lookup in Hj.
    replace (Z.to_nat (0 + Z.of_nat j)) with j by lia. exact Hj.
  - intros i x Hi Hx. apply running_max_upper.
    apply list_elem_of_lookup. exists i. unfold elements.
    apply lookup_take_Some. split; [exact Hx|lia].
Qed.

Lemma indices_point_at_maximum_witness :
  exists st',
    find_max_init (loaded [4; 9; -2; 9]) = Some (0, st') /\
    (forall idx, idx ∈ collected st' ->
       0 <= idx < 4 /\
       (4 :: 9 :: -2 :: 9 :: replicate 12 0) !! Z.to_nat idx = Some (max_val st')) /\
    (forall (i : nat) (x : Z),
       Z.of_nat i < 4 -> (4 :: 9 :: -2 :: 9 :: replicate 12 0) !! i = Some x ->
       x <= max_val st').
Proof.
  apply (indices_point_at_maximum (loaded [4; 9; -2; 9])).
  - entry_of_loaded.
  - split; reflexivity.
  - unfold valid_count, MAX_ARRAY_SIZE, loaded, len. simpl. lia.
Defined.

(** C2.  For every valid input of length 1 to 16 the collected indices are
    strictly increasing and there is at least one; the record of line 94
    ("this should not happen") is not logged. *)
Theorem indices_increasing_nonempty (st : state) :
  entry_state st -> declared_buffers st -> valid_count st ->
  exists st' new,
    find_max_init st = Some (0, st') /\
    StronglySorted Z.lt (collected st') /\
    collected st' <> [] /\
    0 < count st' /\
    klog st' = klog st ++ new /\
    (KERN_WARNING, no_index_warning) ∉ new.
Proof.
  intros Hentry Hbuf Hvalid.
  destruct (find_max_init_result st Hentry Hvalid (declared_buffers_hold st Hbuf))
    as (st' & Hrun & _ & _ & _ & Hcnt & Hc & _ & _ & _ & Hlog).
  exists st', (run_log st). split; [exact Hrun|]. rewrite Hc, Hcnt.
  split; [apply positions_sorted|].
  split; [now apply result_indices_nonempty|].
  split; [pose proof (result_indices_len st Hentry Hvalid); lia|].
  split; [exact Hlog|].
  intros Hin. apply run_log_records in Hin as [H|[H|H]]; discriminate.
Qed.

Lemma indices_increasing_nonempty_witness :
  exists st' new,
    find_max_init (loaded [7; 7; 1; 7]) = Some (0, st') /\
    StronglySorted Z.lt (collected st') /\
    collected st' <> [] /\
    0 < count st' /\
    klog st' = [] ++ new /\
    (KERN_WARNING, no_index_warning) ∉ new.
Proof.
  apply (indices_increasing_nonempty (loaded [7; 7; 1; 7])).
  - entry_of_loaded.
  - split; reflexivity.
  - unfold valid_count, MAX_ARRAY_SIZE, loaded, len. simpl. lia.
Defined.

(** C3.  [find_max_init] returns [-EINVAL] exactly when the element count
    is at most 0 or above 16, and returns 0 for every count from 1 to 16. *)
Theorem rejects_exactly_bad_counts (st : state) :
  entry_state st -> declared_buffers st ->
  exists r st',
    find_max_init st = Some (r, st') /\
    (r = - EINVAL <-> num_elements st <= 0 \/ num_elements st > 16) /\
    (1 <= num_elements st <= 16 -> r = 0).
Proof.
  intros Hentry Hbuf.
  destruct (Z_le_gt_dec (num_elements st) 0) as [Hlo|Hlo];
    [|destruct (Z_le_gt_dec (num_elements st) 16) as [Hhi|Hhi]].
  - destruct (find_max_init_rejects st) as [msg Hrun]; [left; exact Hlo|].
    eexists _, _. split; [exact Hrun|]. split; [tauto|lia].
  - assert (Hvalid : valid_count st) by (unfold valid_count, MAX_ARRAY_SIZE; lia).
    destruct (find_max_init_result st Hentry Hvalid (declared_buffers_hold st Hbuf))
      as (st' & Hrun & _).
    exists 0, st'. split; [exact Hrun|]. unfold EINVAL. split; [|reflexivity].
    split; [discriminate|lia].
  - destruct (find_max_init_rejects st) as [msg Hrun];
      [right; unfold MAX_ARRAY_SIZE; exact Hhi|].
    eexists _, _. split; [exact Hrun|]. split; [tauto|lia].
Qed.

Lemma rejects_exactly_bad_counts_witness :
  exists r st',
    find_max_init (loaded []) = Some (r, st') /\
    (r = - EINVAL <-> 0 <= 0 \/ 0 > 16) /\
    (1 <= 0 <= 16 -> r = 0).
Proof.
  apply (rejects_exactly_bad_counts (loaded [])).
  - entry_of_loaded.
  - split; reflexivity.
Defined.

(** C4.  The running maximum is seeded with [INT_MIN], the least [int], so
    no element is below the seed; on every non-empty valid input the value
    the routine leaves in [max_val] is the running maximum from that seed
    and is the largest element, also when every element equals [INT_MIN]. *)
Theorem scan_finds_largest (st : state) :
  entry_state st -> declared_buffers st -> valid_count st ->
  exists st',
    find_max_init st = Some (0, st') /\
    INT_MIN = - 2147483648 /\
    max_val st' = running_max INT_MIN (elements st) /\
    max_val st' ∈ elements st /\
    (forall x, x ∈ elements st -> INT_MIN <= x <= max_val st') /\
    (Forall (fun x => x = INT_MIN) (elements st) -> max_val st' = INT_MIN) /\
    (KERN_INFO, str "Maximum value found: " ++ fmt_d (max_val st') ++ [nl])
      ∈ klog st'.
Proof.
  intros Hentry Hbuf Hvalid.
  destruct (find_max_init_result st Hentry Hvalid (declared_buffers_hold st Hbuf))
    as (st' & Hrun & _ & _ & Hm & _ & _ & _ & _ & _ & Hlog).
  pose proof (result_value_elem st Hentry Hvalid) as Helem.
  exists st'. split; [exact Hrun|]. rewrite Hm, Hlog.
  split; [reflexivity|]. split; [reflexivity|]. split; [exact Helem|].
  split.
  { intros x Hx. split; [|now apply running_max_upper].
    pose proof (elements_int st Hentry) as Hint.
    rewrite Forall_forall in Hint. now apply Hint. }
  split.
  - intros Hall. rewrite Forall_forall in Hall. now apply Hall.
  - apply elem_of_app. right. unfold run_log.
    apply elem_of_cons. right. apply elem_of_app. right. left.
Qed.

Lemma scan_finds_largest_witness :
  exists st',
    find_max_init (loaded [INT_MIN; INT_MIN; INT_MIN]) = Some (0, st') /\
    INT_MIN = - 2147483648 /\
    max_val st' = running_max INT_MIN [INT_MIN; INT_MIN; INT_MIN] /\
    max_val st' ∈ [INT_MIN; INT_MIN; INT_MIN] /\
    (forall x, x ∈ [INT_MIN; INT_MIN; INT_MIN] -> INT_MIN <= x <= max_val st') /\
    (Forall (fun x => x = INT_MIN) [INT_MIN; INT_MIN; INT_MIN] ->
     max_val st' = INT_MIN) /\
    (KERN_INFO, str "Maximum value found: " ++ fmt_d (max_val st') ++ [nl])
      ∈ klog st'.
Proof.
  apply (scan_finds_largest (loaded [INT_MIN; INT_MIN; INT_MIN])).
  - entry_of_loaded.
  - split; reflexivity.
  - unfold valid_count, MAX_ARRAY_SIZE, loaded, len. simpl. lia.
Defined.

(** C5.  On [1,2,3] the routine finds 3 at [2]; on [5,5,5] it finds 5 at
    [0,1,2]; on [-5,-1,-5] it finds -1 at [1]. *)
Theorem spec_examples (st : state) :
  entry_state st -> declared_buffers st -> num_elements st = 3 ->
  (take 3 (input_array st) = [1; 2; 3] ->
   exists st', find_max_init st = Some (0, st') /\
               max_val st' = 3 /\ collected st' = [2]) /\
  (take 3 (input_array st) = [5; 5; 5] ->
   exists st', find_max_init st = Some (0, st') /\
               max_val st' = 5 /\ collected st' = [0; 1; 2]) /\
  (take 3 (input_array st) = [-5; -1; -5] ->
   exists st', find_max_init st = Some (0, st') /\
               max_val st' = -1 /\ collected st' = [1]).
Proof.
  intros Hentry Hbuf Hn.
  assert (Hvalid : valid_count st)
    by (unfold valid_count, MAX_ARRAY_SIZE; lia).
  destruct (find_max_init_result st Hentry Hvalid (declared_buffers_hold st Hbuf))
    as (st' & Hrun & _ & _ & Hm & _ & Hc & _).
  unfold result_indices, result_value, elements in *. rewrite Hn in *.
  change (Z.to_nat 3) with 3%nat in *.
  repeat split; intros Hxs; exists st'; rewrite Hxs in *;
    (split; [exact Hrun|split; [exact Hm|exact Hc]]).
Qed.

Lemma spec_examples_witness :
  (exists st', find_max_init (loaded [1; 2; 3]) = Some (0, st') /\
               max_val st' = 3 /\ collected st' = [2]) /\
  (exists st', find_max_init (loaded [5; 5; 5]) = Some (0, st') /\
               max_val st' = 5 /\ collected st' = [0; 1; 2]) /\
  (exists st', find_max_init (loaded [-5; -1; -5]) = Some (0, st') /\
               max_val st' = -1 /\ collected st' = [1]).
Proof.
  split; [|split].
  - apply (spec_examples (loaded [1; 2; 3]));
      [entry_of_loaded|split; reflexivity|reflexivity|reflexivity].
  - apply (spec_examples (loaded [5; 5; 5]));
      [entry_of_loaded|split; reflexivity|reflexivity|reflexivity].
  - apply (spec_examples (loaded [-5; -1; -5]));
      [entry_of_loaded|split; reflexivity|reflexivity|reflexivity].
Defined.

(** C8.  Whatever the element count, [find_max_init] returns with
    [input_array] and [num_elements] holding the values they had on
    entry. *)
Theorem parameters_unchanged (st : state) :
  entry_state st -> declared_buffers st ->
  exists r st',
    find_max_init st = Some (r, st') /\
    input_array st' = input_array st /\
    num_elements st' = num_elements st.
Proof.
  intros Hentry Hbuf.
  destruct (Z_le_gt_dec (num_elements st) 0) as [Hlo|Hlo];
    [|destruct (Z_le_gt_dec (num_elements st) MAX_ARRAY_SIZE) as [Hhi|Hhi]].
  - destruct (find_max_init_rejects st) as [msg Hrun]; [left; exact Hlo|].
    eexists _, _. split; [exact Hrun|]. split; reflexivity.
  - assert (Hvalid : valid_count st) by (unfold valid_count; lia).
    destruct (find_max_init_result st Hentry Hvalid (declared_buffers_hold st Hbuf))
      as (st' & Hrun & Ha & Hn & _).
    exists 0, st'. auto.
  - destruct (find_max_init_rejects st) as [msg Hrun]; [right; exact Hhi|].
    eexists _, _. split; [exact Hrun|]. split; reflexivity.
Qed.

Lemma parameters_unchanged_witness :
  exists r st',
    find_max_init (loaded [3; -8; 3; 0; 3]) = Some (r, st') /\
    input_array st' = [3; -8; 3; 0; 3] ++ replicate 11 0 /\
    num_elements st' = 5.
Proof.
  apply (parameters_unchanged (loaded [3; -8; 3; 0; 3])).
  - entry_of_loaded.
  - split; reflexivity.
Defined.

(** C9.  With a valid element count the second scan never holds more than
    16 indices: after [k] of its iterations at most [k] are collected, the
    final count is at most the element count, and the warning of line 70
    is not logged. *)
Theorem index_storage_suffices (st : state) :
  entry_state st -> declared_buffers st -> valid_count st ->
  exists st' new,
    find_max_init st = Some (0, st') /\
    (0 <= count st' <= num_elements st) /\
    count st' <= MAX_ARRAY_SIZE /\
    klog st' = klog st ++ new /\
    ((KERN_WARNING, overflow_warning) ∉ new) /\
    (forall k : nat,
       Z.of_nat k <= num_elements st ->
       exists st_k,
         collect_indices k 0 (upd_count 0 (upd_max_val (result_value st) st))
         = Some (tt, st_k) /\
         (0 <= count st_k <= Z.of_nat k) /\
         klog st_k = klog st).
Proof.
  intros Hentry Hbuf Hvalid.
  destruct (find_max_init_result st Hentry Hvalid (declared_buffers_hold st Hbuf))
    as (st' & Hrun & _ & _ & _ & Hcnt & _ & _ & _ & _ & Hlog).
  pose proof (result_indices_len st Hentry Hvalid) as Hpl.
  exists st', (run_log st). split; [exact Hrun|]. rewrite Hcnt.
  unfold valid_count in Hvalid.
  split; [lia|]. split; [lia|]. split; [exact Hlog|]. split.
  - intros Hin. apply run_log_records in Hin as [H|[H|H]]; discriminate.
  - intros k Hk.
    pose proof (elements_length st Hentry Hvalid) as Hxl.
    set (xs := take k (elements st)).
    assert (Hlen : length xs = k) by (unfold xs; rewrite length_take; lia).
    pose proof (collect_indices_run xs 0
                  (upd_count 0 (upd_max_val (result_value st) st))) as Hc.
    cbv zeta in Hc. rewrite Hlen in Hc. change (Z.of_nat 0) with 0 in Hc.
    eexists. split.
    + apply Hc; cbn [upd_count upd_max_val input_array count max_indices].
      * intros j x Hj. unfold xs in Hj. apply lookup_take_Some in Hj as [Hj _].
        now apply elements_lookup.
      * unfold len, INT_MAX, MAX_ARRAY_SIZE in *. lia.
      * lia.
      * unfold len. lia.
      * now destruct Hentry.
    + cbn [upd_count upd_indices upd_max_val count klog max_val].
      pose proof (positions_length (result_value st) xs 0) as Hp.
      unfold len. split; [lia|reflexivity].
Qed.

Lemma index_storage_suffices_witness :
  exists st' new,
    find_max_init (loaded (replicate 16 8)) = Some (0, st') /\
    (0 <= count st' <= 16) /\
    count st' <= MAX_ARRAY_SIZE /\
    klog st' = [] ++ new /\
    ((KERN_WARNING, overflow_warning) ∉ new) /\
    (forall k : nat,
       Z.of_nat k <= 16 ->
       exists st_k,
         collect_indices k 0
           (upd_count 0 (upd_max_val (result_value (loaded (replicate 16 8)))
                                     (loaded (replicate 16 8))))
         = Some (tt, st_k) /\
         (0 <= count st_k <= Z.of_nat k) /\
         klog st_k = []).
Proof.
  apply (index_storage_suffices (loaded (replicate 16 8))).
  - entry_of_loaded.
  - split; reflexivity.
  - unfold valid_count, MAX_ARRAY_SIZE, loaded, len. simpl. lia.
Defined.

(** C10.  With a valid element count and the declared 256-byte buffers both
    texts fit whole, NUL included, in less than 240 bytes; the routine logs
    them uncut and logs no truncation warning. *)
Theorem declared_buffers_suffice (st : state) :
  entry_state st -> declared_buffers st -> valid_count st ->
  exists st',
    find_max_init st = Some (0, st') /\
    len (array_text st) + 1 < 240 /\
    len (indices_text st) + 1 < 240 /\
    klog st' = klog st ++ [init_record;
                           (KERN_INFO, array_text st ++ [nl]);
                           max_record (max_val st');
                           (KERN_INFO, indices_text st ++ [nl])] /\
    ((KERN_WARNING, array_warning) ∉ drop (length (klog st)) (klog st')) /\
    (KERN_WARNING, indices_warning) ∉ drop (length (klog st)) (klog st').
Proof.
  intros Hentry Hbuf Hvalid.
  destruct (find_max_init_result st Hentry Hvalid (declared_buffers_hold st Hbuf))
    as (st' & Hrun & _ & _ & Hm & _ & _ & _ & _ & _ & Hlog).
  pose proof (array_text_len st Hentry Hvalid) as Ha.
  pose proof (indices_text_len st Hentry Hvalid) as Hi.
  exists st'. split; [exact Hrun|]. split; [lia|]. split; [lia|].
  assert (Hnew : run_log st = [init_record;
                               (KERN_INFO, array_text st ++ [nl]);
                               max_record (max_val st');
                               (KERN_INFO, indices_text st ++ [nl])]).
  { destruct Hbuf as [Hb1 Hb2]. unfold run_log, render_log. rewrite Hb1, Hb2, Hm.
    fold (array_text st) in *. unfold array_text, indices_text in *.
    rewrite !rendered_full by lia. reflexivity. }
  rewrite Hlog, Hnew, drop_app_length.
  split; [reflexivity|].
  split; intros Hin; repeat (apply elem_of_cons in Hin as [Hin|Hin]; [discriminate|]);
    inversion Hin.
Qed.

Lemma declared_buffers_suffice_witness :
  exists st',
    find_max_init (loaded (replicate 16 INT_MIN)) = Some (0, st') /\
    len (array_text (loaded (replicate 16 INT_MIN))) + 1 < 240 /\
    len (indices_text (loaded (replicate 16 INT_MIN))) + 1 < 240 /\
    klog st' = [] ++ [init_record;
                      (KERN_INFO, array_text (loaded (replicate 16 INT_MIN)) ++ [nl]);
                      max_record (max_val st');
                      (KERN_INFO, indices_text (loaded (replicate 16 INT_MIN)) ++ [nl])] /\
    ((KERN_WARNING, array_warning) ∉ drop 0 (klog st')) /\
    (KERN_WARNING, indices_warning) ∉ drop 0 (klog st').
Proof.
  apply (declared_buffers_suffice (loaded (replicate 16 INT_MIN))).
  - entry_of_loaded.
  - split; reflexivity.
  - unfold valid_count, MAX_ARRAY_SIZE, loaded, len. simpl. lia.
Defined.

(** C7.  Rendering never stores outside its buffer, at the declared
    capacity of 256 bytes and at any smaller one that holds the header:
    a store outside a buffer is a fault and no run faults, whatever the
    element count; the buffers keep their capacity; each logged line fits
    in its buffer with its NUL; and when the elements do not fit, the
    truncation warning is logged and the line is cut short.  At the
    declared capacity both texts fit whole. *)
Theorem rendering_stays_in_buffer (st : state) :
  entry_state st -> buffers_hold_headers st ->
  (forall b pos c s, ~ (0 <= pos < len (buf_of b s)) -> store_char b pos c s = None) /\
  exists r st',
    find_max_init st = Some (r, st') /\
    len (array_str st') = len (array_str st) /\
    len (indices_str st') = len (indices_str st) /\
    (valid_count st ->
     truncates_within (len (array_str st)) array_warning (array_body st)
                      (array_line st) (drop (length (klog st)) (klog st')) /\
     truncates_within (len (indices_str st)) indices_warning (indices_body st)
                      (indices_line st) (drop (length (klog st)) (klog st')) /\
     (declared_buffers st ->
      len (array_text st) < 256 /\ len (indices_text st) < 256)).
Proof.
  intros Hentry Hbuf. split; [apply store_char_outside|].
  destruct (Z_le_gt_dec (num_elements st) 0) as [Hlo|Hlo];
    [|destruct (Z_le_gt_dec (num_elements st) MAX_ARRAY_SIZE) as [Hhi|Hhi]].
  - destruct (find_max_init_rejects st) as [msg Hrun]; [left; exact Hlo|].
    eexists _, _. split; [exact Hrun|]. split; [reflexivity|]. split; [reflexivity|].
    unfold valid_count. lia.
  - assert (Hvalid : valid_count st) by (unfold valid_count; lia).
    destruct (find_max_init_result st Hentry Hvalid Hbuf)
      as (st' & Hrun & _ & _ & _ & _ & _ & _ & Ha & Hi & Hlog).
    destruct (run_log_truncates st Hentry Hvalid Hbuf) as [Hta Hti].
    exists 0, st'. rewrite Hlog, drop_app_length.
    split; [exact Hrun|]. split; [exact Ha|]. split; [exact Hi|]. intros _.
    split; [exact Hta|]. split; [exact Hti|]. intros _.
    pose proof (array_text_len st Hentry Hvalid).
    pose proof (indices_text_len st Hentry Hvalid). lia.
  - destruct (find_max_init_rejects st) as [msg Hrun]; [right; exact Hhi|].
    eexists _, _. split; [exact Hrun|]. split; [reflexivity|]. split; [reflexivity|].
    unfold valid_count. lia.
Qed.

Lemma rendering_stays_in_buffer_witness :
  (forall b pos c s, ~ (0 <= pos < len (buf_of b s)) -> store_char b pos c s = None) /\
  exists r st',
    find_max_init undersized = Some (r, st') /\
    len (array_str st') = 40 /\
    len (indices_str st') = 40 /\
    (valid_count undersized ->
     truncates_within 40 array_warning (array_body undersized)
                      (array_line undersized) (drop 0 (klog st')) /\
     truncates_within 40 indices_warning (indices_body undersized)
                      (indices_line undersized) (drop 0 (klog st')) /\
     (declared_buffers undersized ->
      len (array_text undersized) < 256 /\ len (indices_text undersized) < 256)).
Proof.
  apply (rendering_stays_in_buffer undersized).
  - unfold undersized. entry_of_loaded.
  - unfold buffers_hold_headers, INT_MAX, undersized, loaded_with, len. simpl. lia.
Defined.

(** C6.  Truncation while rendering and a full index storage are not
    fatal.  With buffers of any capacity that holds the headers the
    routine returns 0 with the right result; its records are never errors;
    when the elements of a rendering do not fit, the warning is logged, the
    line is logged cut short, and the routine goes on to the next record.
    When the second scan meets a maximum with the index storage full, it
    logs a warning and stops without storing, and the rest of the routine
    reports the stored indices and returns 0. *)
Theorem degradation_is_not_fatal :
  (forall st : state,
     entry_state st -> valid_count st -> buffers_hold_headers st ->
     exists st',
       find_max_init st = Some (0, st') /\
       max_val st' = result_value st /\
       collected st' = result_indices st /\
       klog st' = klog st ++ run_log st /\
       Forall (fun r => r.1 = KERN_INFO \/ r.1 = KERN_WARNING) (run_log st) /\
       truncates_within (len (array_str st)) array_warning (array_body st)
                        (array_line st) (run_log st) /\
       max_record (result_value st) ∈ run_log st /\
       truncates_within (len (indices_str st)) indices_warning (indices_body st)
                        (indices_line st) (run_log st)) /\
  (forall (k i : nat) (st : state),
     input_array st !! i = Some (max_val st) ->
     count st = MAX_ARRAY_SIZE ->
     len (max_indices st) = MAX_ARRAY_SIZE ->
     Forall is_int (max_indices st) ->
     26 <= len (indices_str st) <= INT_MAX ->
     collect_indices (S k) (Z.of_nat i) st
     = Some (tt, with_log st [(KERN_WARNING, overflow_warning)]) /\
     exists st',
       (collect_indices (S k) (Z.of_nat i) ;; report_indices) st = Some (0, st') /\
       count st' = count st /\
       max_indices st' = max_indices st /\
       klog st' = klog st
                  ++ (KERN_WARNING, overflow_warning)
                     :: render_log (len (indices_str st)) indices_header
                                   indices_warning MAX_ARRAY_SIZE (max_indices st)).
Proof.
  split.
  - intros st Hentry Hvalid Hbuf.
    destruct (find_max_init_result st Hentry Hvalid Hbuf)
      as (st' & Hrun & _ & _ & Hm & _ & Hc & _ & _ & _ & Hlog).
    destruct (run_log_truncates st Hentry Hvalid Hbuf) as [Hta Hti].
    exists st'.
    split; [exact Hrun|]. split; [exact Hm|]. split; [exact Hc|].
    split; [exact Hlog|]. split; [|split; [exact Hta|split; [|exact Hti]]].
    + apply Forall_forall. intros r Hr.
      apply run_log_records in Hr as [H|[H|H]]; [auto|subst r; auto..].
    + unfold run_log. right. apply elem_of_app. right. left.
  - intros k i st Hx Hc Hl Hint Hcap.
    split; [apply collect_indices_full; [exact Hx|lia]|].
    destruct (full_storage_report k i st Hx Hc Hl Hint Hcap) as (ibuf & Hrun & _).
    eexists. split; [exact Hrun|].
    cbn [with_log set_buf count max_indices klog]. auto.
Qed.

Lemma degradation_is_not_fatal_witness :
  (exists st',
     find_max_init undersized = Some (0, st') /\
     max_val st' = result_value undersized /\
     collected st' = result_indices undersized /\
     klog st' = [] ++ run_log undersized /\
     Forall (fun r => r.1 = KERN_INFO \/ r.1 = KERN_WARNING) (run_log undersized) /\
     truncates_within 40 array_warning (array_body undersized)
                      (array_line undersized) (run_log undersized) /\
     max_record (result_value undersized) ∈ run_log undersized /\
     truncates_within 40 indices_warning (indices_body undersized)
                      (indices_line undersized) (run_log undersized)) /\
  (collect_indices 3 (Z.of_nat 2) full_storage
   = Some (tt, with_log full_storage [(KERN_WARNING, overflow_warning)]) /\
   exists st',
     (collect_indices 3 (Z.of_nat 2) ;; report_indices) full_storage = Some (0, st') /\
     count st' = 16 /\
     max_indices st' = replicate 16 0 /\
     klog st' = []
                ++ (KERN_WARNING, overflow_warning)
                   :: render_log 256 indices_header indices_warning
                                 MAX_ARRAY_SIZE (replicate 16 0)).
Proof.
  split.
  - apply (proj1 degradation_is_not_fatal undersized).
    + unfold undersized. entry_of_loaded.
    + unfold valid_count, MAX_ARRAY_SIZE, undersized, loaded_with, len. simpl. lia.
    + unfold buffers_hold_headers, INT_MAX, undersized, loaded_with, len. simpl. lia.
  - apply (proj2 degradation_is_not_fatal 2%nat 2%nat full_storage).
    + reflexivity.
    + reflexivity.
    + reflexivity.
    + apply Forall_replicate. unfold is_int, INT_MIN, INT_MAX. lia.
    + unfold INT_MAX, full_storage, len. simpl. lia.
Defined.

(** ** The truncation at work *)

(** In 40 bytes the third element does not fit: the routine warns, logs the
    line cut after the second element, and carries on. *)
Example undersized_run :
  exists st',
    find_max_init undersized = Some (0, st') /\
    klog st' = [ init_record;
                 (KERN_WARNING, array_warning);
                 (KERN_INFO, str "Received 4 element(s): [100, 200, ]" ++ [nl]);
                 max_record 200;
                 (KERN_INFO, str "Found at index/indices: [1]" ++ [nl]) ] /\
    40 <= len (array_body undersized).
Proof.
  eexists. split; [vm_compute; reflexivity|]. split; [reflexivity|].
  vm_compute. discriminate.
Qed.

(** The worst case of the array text at the declared capacity: sixteen
    times [INT_MIN] takes 232 characters and its NUL. *)
Example longest_array_text :
  len (array_text (loaded (replicate 16 INT_MIN))) + 1 = 233.
Proof. vm_compute. reflexivity. Qed.

(** The numeral of [INT_MIN]. *)
Example fmt_d_INT_MIN : fmt_d INT_MIN = str "-2147483648".
Proof. vm_compute. reflexivity. Qed.

(** A full index storage: the scan warns, and the report still lists the
    sixteen stored indices. *)
Example full_storage_run :
  exists st',
    (collect_indices 3 2 ;; report_indices) full_storage = Some (0, st') /\
    klog st' = [ (KERN_WARNING, overflow_warning);
                 (KERN_INFO,
                  str "Found at index/indices: [0, 0, 0, 0, 0, 0, 0, 0, 0, 0, 0, 0, 0, 0, 0, 0]"
                  ++ [nl]) ].
Proof. eexists. split; vm_compute; reflexivity. Qed.

(** A buffer one byte short of the whole text: every element fits, the
    closing bracket does not, and its [snprintf] is not checked, so the
    line loses the bracket without a warning.  This needs a buffer of
    exactly the length of the text; at 256 bytes the text is at most 232
    characters long. *)
Example bracket_cut_silently :
  exists st',
    find_max_init (loaded_with 32 [1; 2; 3]) = Some (0, st') /\
    len (array_text (loaded_with 32 [1; 2; 3])) = 32 /\
    klog st' = [ init_record;
                 (KERN_INFO, str "Received 3 element(s): [1, 2, 3" ++ [nl]);
                 max_record 3;
                 (KERN_INFO, str "Found at index/indices: [2]" ++ [nl]) ].
Proof. eexists. split; [vm_compute; reflexivity|]. split; reflexivity. Qed.

(** ** Beyond the claims: the rejected run *)

Lemma find_max_init_rejects_with (st : state) :
  num_elements st <= 0 \/ num_elements st > MAX_ARRAY_SIZE ->
  find_max_init st
  = Some (- EINVAL,
          with_log (upd_count 0 (upd_max_val INT_MIN st)) (reject_log st)).
Proof.
  intros Hn. unfold find_max_init, reject_log.
  do 4 (erewrite bind_Some by reflexivity). norm_state.
  destruct (Z.leb_spec (num_elements st) 0).
  - erewrite bind_Some by reflexivity. unfold ret. norm_state.
    rewrite <- app_assoc. reflexivity.
  - destruct (Z.gtb_spec (num_elements st) MAX_ARRAY_SIZE); [|lia].
    erewrite bind_Some by reflexivity. unfold ret. norm_state.
    rewrite <- app_assoc. reflexivity.
Qed.

(** X1.  A run with a rejected element count (at most 0, or above 16) needs
    no well-formed state: it returns [-EINVAL], adds the start record and
    one error record (the "no elements" text for a count of 0 or less, the
    text with the count and the limit 16 otherwise), and leaves the index
    storage and both text buffers untouched. *)
Theorem rejected_run_touches_nothing (st : state) :
  num_elements st <= 0 \/ num_elements st > 16 ->
  exists st',
    find_max_init st = Some (- EINVAL, st') /\
    klog st' = klog st
               ++ [ init_record;
                    (KERN_ERR, if num_elements st <=? 0 then empty_error
                               else too_many_error (num_elements st)) ] /\
    max_indices st' = max_indices st /\
    array_str st' = array_str st /\
    indices_str st' = indices_str st /\
    input_array st' = input_array st /\
    num_elements st' = num_elements st.
Proof.
  intros Hn. eexists. split; [apply find_max_init_rejects_with; exact Hn|].
  repeat split; reflexivity.
Qed.

Lemma rejected_run_touches_nothing_witness :
  exists st',
    find_max_init (loaded []) = Some (- EINVAL, st') /\
    klog st' = [] ++ [ init_record; (KERN_ERR, empty_error) ] /\
    max_indices st' = replicate 16 0 /\
    array_str st' = replicate 256 NUL /\
    indices_str st' = replicate 256 NUL /\
    input_array st' = replicate 16 0 /\
    num_elements st' = 0.
Proof.
  apply (rejected_run_touches_nothing (loaded [])).
  left. unfold loaded, len. simpl. lia.
Defined.

(** ** Beyond the claims: what the outcome depends on *)

Lemma valid_count_test (st : state) :
  valid_count st ->
  (1 <=? num_elements st) && (num_elements st <=? MAX_ARRAY_SIZE) = true.
Proof.
  unfold valid_count. intros H. apply andb_true_iff. split; lia.
Qed.

Lemma invalid_count_test (st : state) :
  num_elements st <= 0 \/ num_elements st > MAX_ARRAY_SIZE ->
  (1 <=? num_elements st) && (num_elements st <=? MAX_ARRAY_SIZE) = false.
Proof.
  intros H. apply andb_false_iff.
  destruct H; [left|right]; lia.
Qed.

(** Every run, accepted or rejected: the return value and the new records
    are [outcome_ret] and [outcome_log]. *)
Lemma find_max_init_outcome (st : state) :
  entry_state st -> buffers_hold_headers st ->
  exists st',
    find_max_init st = Some (outcome_ret st, st') /\
    klog st' = klog st ++ outcome_log st /\
    input_array st' = input_array st /\
    num_elements st' = num_elements st /\
    len (max_indices st') = MAX_ARRAY_SIZE /\
    len (array_str st') = len (array_str st) /\
    len (indices_str st') = len (indices_str st) /\
    max_val st' = running_max INT_MIN
                    (if (1 <=? num_elements st)
                        && (num_elements st <=? MAX_ARRAY_SIZE)
                     then elements st else []) /\
    collected st' = (if (1 <=? num_elements st)
                        && (num_elements st <=? MAX_ARRAY_SIZE)
                     then result_indices st else []).
Proof.
  intros Hentry Hbuf. unfold outcome_ret, outcome_log.
  destruct (Z_le_gt_dec (num_elements st) 0) as [Hlo|Hlo];
    [|destruct (Z_le_gt_dec (num_elements st) MAX_ARRAY_SIZE) as [Hhi|Hhi]].
  - rewrite invalid_count_test by (left; exact Hlo).
    eexists. split; [apply find_max_init_rejects_with; left; exact Hlo|].
    destruct Hentry as [_ _ _ Hml]. repeat split; try reflexivity. exact Hml.
  - assert (Hvalid : valid_count st) by (unfold valid_count; lia).
    rewrite valid_count_test by exact Hvalid.
    destruct (find_max_init_result st Hentry Hvalid Hbuf)
      as (st' & Hrun & Ha & Hn & Hm & _ & Hc & Hml & Hla & Hli & Hlog).
    exists st'. repeat split; assumption.
  - rewrite invalid_count_test by (right; exact Hhi).
    eexists. split; [apply find_max_init_rejects_with; right; exact Hhi|].
    destruct Hentry as [_ _ _ Hml]. repeat split; try reflexivity. exact Hml.
Qed.

Lemma same_input_outcome (st1 st2 : state) :
  same_input st1 st2 ->
  outcome_ret st1 = outcome_ret st2 /\ outcome_log st1 = outcome_log st2 /\
  result_indices st1 = result_indices st2.
Proof.
  intros (Hn & Hx & Ha & Hi).
  unfold outcome_ret, outcome_log, run_log, reject_log, result_indices, result_value.
  rewrite Hn, Hx, Ha, Hi. auto.
Qed.

(** X2.  The outcome of a run depends only on the element count, on the
    elements the count covers and on the capacities of the text buffers:
    two entry states that agree on these return the same value, add the
    same records to the log and find the same maximum and indices.  The
    array slots behind the count and whatever the locals and the buffers
    held on entry never show. *)
Theorem outcome_ignores_stale_memory (st1 st2 : state) :
  entry_state st1 -> entry_state st2 ->
  buffers_hold_headers st1 -> same_input st1 st2 ->
  exists r new s1 s2,
    find_max_init st1 = Some (r, s1) /\
    find_max_init st2 = Some (r, s2) /\
    klog s1 = klog st1 ++ new /\
    klog s2 = klog st2 ++ new /\
    max_val s1 = max_val s2 /\
    collected s1 = collected s2.
Proof.
  intros He1 He2 Hb1 Hsame.
  assert (Hb2 : buffers_hold_headers st2).
  { destruct Hsame as (_ & _ & Ha & Hi). unfold buffers_hold_headers in *.
    rewrite <- Ha, <- Hi. exact Hb1. }
  destruct (same_input_outcome st1 st2 Hsame) as (Hr & Hl & Hp).
  destruct (find_max_init_outcome st1 He1 Hb1)
    as (s1 & Hrun1 & Hlog1 & _ & _ & _ & _ & _ & Hm1 & Hc1).
  destruct (find_max_init_outcome st2 He2 Hb2)
    as (s2 & Hrun2 & Hlog2 & _ & _ & _ & _ & _ & Hm2 & Hc2).
  destruct Hsame as (Hn & Hx & _ & _).
  exists (outcome_ret st1), (outcome_log st1), s1, s2.
  split; [exact Hrun1|]. split; [rewrite Hr; exact Hrun2|].
  split; [exact Hlog1|]. split; [rewrite Hl; exact Hlog2|].
  rewrite Hm1, Hm2, Hc1, Hc2, Hn, Hx, Hp. auto.
Qed.

Lemma outcome_ignores_stale_memory_witness :
  exists r new s1 s2,
    find_max_init (loaded [4; 9; 9]) = Some (r, s1) /\
    find_max_init (State ([4; 9; 9] ++ replicate 13 77) 3 55 (-3)
                         (replicate 16 12)
                         (replicate 256 (ascii_of_nat 65))
                         (replicate 256 (ascii_of_nat 66))
                         [(KERN_INFO, str "earlier")])
    = Some (r, s2) /\
    klog s1 = [] ++ new /\
    klog s2 = [(KERN_INFO, str "earlier")] ++ new /\
    max_val s1 = max_val s2 /\
    collected s1 = collected s2.
Proof.
  apply (outcome_ignores_stale_memory (loaded [4; 9; 9])).
  - entry_of_loaded.
  - split; [reflexivity| |unfold is_int, INT_MIN, INT_MAX; simpl; lia|reflexivity].
    apply Forall_app. split; [|apply Forall_replicate];
      repeat constructor; unfold is_int, INT_MIN, INT_MAX; lia.
  - unfold buffers_hold_headers, INT_MAX, loaded, len. simpl. lia.
  - repeat split; reflexivity.
Defined.

(** X3.  A run keeps the entry conditions: the final state is again an
    entry state with the same parameters and buffer capacities, the log
    has only grown, and running the routine again from it returns the same
    value and adds the same records once more. *)
Theorem run_keeps_entry_state (st : state) :
  entry_state st -> buffers_hold_headers st ->
  exists r new st' st'',
    find_max_init st = Some (r, st') /\
    entry_state st' /\
    same_input st st' /\
    klog st' = klog st ++ new /\
    find_max_init st' = Some (r, st'') /\
    klog st'' = klog st ++ new ++ new.
Proof.
  intros Hentry Hbuf.
  destruct (find_max_init_outcome st Hentry Hbuf)
    as (st' & Hrun & Hlog & Ha & Hn & Hml & Hla & Hli & _).
  assert (Hentry' : entry_state st').
  { destruct Hentry as [H1 H2 H3 _]. split; [rewrite Ha; exact H1
      |rewrite Ha; exact H2|rewrite Hn; exact H3|exact Hml]. }
  assert (Hsame : same_input st st').
  { unfold same_input, elements. rewrite Ha, Hn, Hla, Hli. auto. }
  assert (Hbuf' : buffers_hold_headers st').
  { unfold buffers_hold_headers in *. rewrite Hla, Hli. exact Hbuf. }
  destruct (same_input_outcome st st' Hsame) as (Hr & Hl & _).
  destruct (find_max_init_outcome st' Hentry' Hbuf')
    as (st'' & Hrun' & Hlog' & _).
  exists (outcome_ret st), (outcome_log st), st', st''.
  split; [exact Hrun|]. split; [exact Hentry'|]. split; [exact Hsame|].
  split; [exact Hlog|]. split; [rewrite Hr; exact Hrun'|].
  rewrite Hlog', Hlog, <- Hl, <- app_assoc. reflexivity.
Qed.

Lemma run_keeps_entry_state_witness :
  exists r new st' st'',
    find_max_init (loaded [2; 8; 8; 1]) = Some (r, st') /\
    entry_state st' /\
    same_input (loaded [2; 8; 8; 1]) st' /\
    klog st' = [] ++ new /\
    find_max_init st' = Some (r, st'') /\
    klog st'' = [] ++ new ++ new.
Proof.
  apply (run_keeps_entry_state (loaded [2; 8; 8; 1])).
  - entry_of_loaded.
  - unfold buffers_hold_headers, INT_MAX, loaded, len. simpl. lia.
Defined.

(** ** Beyond the claims: every maximum is collected *)

Lemma positions_count (m : Z) (xs : list Z) :
  forall i, length (positions m i xs) = count_occ Z.eq_dec xs m.
Proof.
  induction xs as [|x xs IH]; intros i; simpl; [reflexivity|].
  destruct (Z.eqb_spec x m) as [E|E]; destruct (Z.eq_dec x m) as [E'|E'];
    try contradiction; simpl; rewrite IH; reflexivity.
Qed.

Lemma positions_NoDup (m : Z) (xs : list Z) :
  forall i, NoDup (positions m i xs).
Proof.
  induction xs as [|x xs IH]; intros i; simpl; [constructor|].
  destruct (x =? m); [|apply IH].
  constructor; [|apply IH].
  intros Hin. apply positions_range in Hin. lia.
Qed.

(** X4.  The second scan misses no occurrence: on a valid input every
    position that holds the maximum is among the collected indices, no
    index is collected twice, and [count] is the number of elements equal
    to the maximum. *)
Theorem every_maximum_is_collected (st : state) :
  entry_state st -> declared_buffers st -> valid_count st ->
  exists st',
    find_max_init st = Some (0, st') /\
    (forall i : nat,
       Z.of_nat i < num_elements st ->
       input_array st !! i = Some (max_val st') ->
       Z.of_nat i ∈ collected st') /\
    NoDup (collected st') /\
    count st' = Z.of_nat (count_occ Z.eq_dec (elements st) (max_val st')).
Proof.
  intros Hentry Hbuf Hvalid.
  destruct (find_max_init_result st Hentry Hvalid (declared_buffers_hold st Hbuf))
    as (st' & Hrun & _ & _ & Hm & Hcnt & Hc & _).
  exists st'. split; [exact Hrun|]. rewrite Hc, Hcnt, Hm.
  split; [|split].
  - intros i Hi Hx. apply positions_elem. exists i. split; [lia|].
    unfold elements. apply lookup_take_Some. split; [exact Hx|lia].
  - apply positions_NoDup.
  - unfold result_indices, len. rewrite positions_count. reflexivity.
Qed.

Lemma every_maximum_is_collected_witness :
  exists st',
    find_max_init (loaded [6; 2; 6; 6; -1]) = Some (0, st') /\
    (forall i : nat,
       Z.of_nat i < 5 ->
       ([6; 2; 6; 6; -1] ++ replicate 11 0) !! i = Some (max_val st') ->
       Z.of_nat i ∈ collected st') /\
    NoDup (collected st') /\
    count st' = Z.of_nat (count_occ Z.eq_dec [6; 2; 6; 6; -1] (max_val st')).
Proof.
  apply (every_maximum_is_collected (loaded [6; 2; 6; 6; -1])).
  - entry_of_loaded.
  - split; reflexivity.
  - unfold valid_count, MAX_ARRAY_SIZE, loaded, len. simpl. lia.
Defined.

(** X5.  The second scan stores only into the slots it counts: on a valid
    input every slot of the index storage from [count] on holds what it
    held on entry. *)
Theorem unused_slots_untouched (st : state) :
  entry_state st -> declared_buffers st -> valid_count st ->
  exists st',
    find_max_init st = Some (0, st') /\
    len (max_indices st') = len (max_indices st) /\
    (forall k : nat,
       count st' <= Z.of_nat k ->
       max_indices st' !! k = max_indices st !! k).
Proof.
  intros Hentry Hbuf Hvalid.
  destruct (find_max_init_run st Hentry Hvalid (declared_buffers_hold st Hbuf))
    as (abuf & ibuf & Hrun & _).
  pose proof (result_indices_len st Hentry Hvalid) as Hpl.
  destruct Hentry as [_ _ _ Hml]. unfold valid_count, MAX_ARRAY_SIZE, len in *.
  eexists. split; [exact Hrun|]. cbn [max_indices count]. split.
  - rewrite length_app, length_drop. lia.
  - intros k Hk. rewrite lookup_app_r by lia. rewrite lookup_drop.
    f_equal. lia.
Qed.

Lemma unused_slots_untouched_witness :
  exists st',
    find_max_init (State ([3; 7; 7] ++ replicate 13 0) 3 0 0
                         [10; 11; 12; 13; 14; 15; 16; 17;
                          18; 19; 20; 21; 22; 23; 24; 25]
                         (replicate 256 NUL) (replicate 256 NUL) [])
    = Some (0, st') /\
    len (max_indices st') = 16 /\
    (forall k : nat,
       count st' <= Z.of_nat k ->
       max_indices st' !! k
       = [10; 11; 12; 13; 14; 15; 16; 17;
          18; 19; 20; 21; 22; 23; 24; 25] !! k).
Proof.
  apply (unused_slots_untouched
           (State ([3; 7; 7] ++ replicate 13 0) 3 0 0
                  [10; 11; 12; 13; 14; 15; 16; 17;
                   18; 19; 20; 21; 22; 23; 24; 25]
                  (replicate 256 NUL) (replicate 256 NUL) [])).
  - split; [reflexivity| |unfold is_int, INT_MIN, INT_MAX; simpl; lia|reflexivity].
    apply Forall_app. split; [|apply Forall_replicate];
      repeat constructor; unfold is_int, INT_MIN, INT_MAX; lia.
  - split; reflexivity.
  - unfold valid_count, MAX_ARRAY_SIZE. simpl. lia.
Defined.

(** ** Beyond the claims: a cut line holds whole elements *)

Lemma fit_whole (cap : Z) (texts : list (list ascii)) :
  forall acc,
    len acc < cap ->
    exists j : nat,
      (j <= length texts)%nat /\
      (fit cap acc texts).1 = acc ++ concat (take j texts) /\
      ((fit cap acc texts).2 = true <-> (j < length texts)%nat) /\
      ((j < length texts)%nat ->
       cap <= len (acc ++ concat (take (S j) texts))).
Proof.
  induction texts as [|t texts IH]; intros acc Hacc; simpl.
  - exists 0%nat. rewrite app_nil_r. repeat split; try lia; try discriminate.
  - destruct (Z.leb_spec (cap - len acc) (len t)) as [Hle|Hlt]; simpl.
    + exists 0%nat. rewrite take_0. simpl. rewrite !app_nil_r.
      repeat split; try lia. intros _. rewrite len_app. lia.
    + destruct (IH (acc ++ t)) as (j & Hj & Hfit & Hcut & Hnext);
        [rewrite len_app; lia|].
      exists (S j). split; [lia|]. split; [rewrite Hfit, <- app_assoc; reflexivity|].
      split; [rewrite Hcut; lia|].
      intros Hlt'. cbn [take concat]. rewrite app_assoc. apply Hnext. lia.
Qed.

Lemma item_texts_length (n : Z) (xs : list Z) :
  forall i, length (item_texts n i xs) = length xs.
Proof. induction xs as [|x xs IH]; intros i; simpl; [|rewrite IH]; reflexivity. Qed.

Lemma rendered_whole (cap : Z) (header : list ascii) (n : Z) (xs : list Z) :
  len header < cap ->
  exists j : nat,
    whole_elements cap header (item_texts n 0 xs) j (rendered cap header n xs).1 /\
    ((rendered cap header n xs).2 = true <-> (j < length xs)%nat).
Proof.
  intros H. unfold rendered, whole_elements.
  destruct (fit_whole cap (item_texts n 0 xs) header H)
    as (j & Hj & Hfit & Hcut & Hnext).
  destruct (fit cap header (item_texts n 0 xs)) as [acc cut]. cbn [fst snd] in *.
  rewrite item_texts_length in Hcut. subst acc.
  exists j. split; [|exact Hcut]. split; [exact Hj|]. split; [reflexivity|exact Hnext].
Qed.

Lemma render_log_warning (cap : Z) (header warning : list ascii) (n : Z)
    (xs : list Z) :
  (rendered cap header n xs).2 = true ->
  (KERN_WARNING, warning) ∈ render_log cap header warning n xs.
Proof.
  unfold render_log. destruct (rendered cap header n xs) as [line cut].
  simpl. intros ->. left.
Qed.

Lemma render_log_line (cap : Z) (header warning : list ascii) (n : Z)
    (xs : list Z) :
  (KERN_INFO, (rendered cap header n xs).1 ++ [nl])
    ∈ render_log cap header warning n xs.
Proof.
  unfold render_log. destruct (rendered cap header n xs) as [line cut].
  apply elem_of_app. right. left.
Qed.

(** X6.  A rendering cuts between elements, never inside one.  With text
    buffers of any capacity that holds the headers, each of the two logged
    lines is the header, the first [j] elements printed whole with their
    separators, and the closing bracket if a byte is left for it; [j] is
    as large as the buffer allows, and the truncation warning of a
    rendering is logged exactly when it leaves an element out. *)
Theorem cut_lines_hold_whole_elements (st : state) :
  entry_state st -> valid_count st -> buffers_hold_headers st ->
  exists st' (ja ji : nat),
    find_max_init st = Some (0, st') /\
    let new := drop (length (klog st)) (klog st') in
    whole_elements (len (array_str st)) (array_header (num_elements st))
                   (item_texts (num_elements st) 0 (elements st))
                   ja (array_line st) /\
    (KERN_INFO, array_line st ++ [nl]) ∈ new /\
    ((KERN_WARNING, array_warning) ∈ new <-> (ja < length (elements st))%nat) /\
    whole_elements (len (indices_str st)) indices_header
                   (item_texts (len (collected st')) 0 (collected st'))
                   ji (indices_line st) /\
    (KERN_INFO, indices_line st ++ [nl]) ∈ new /\
    ((KERN_WARNING, indices_warning) ∈ new <-> (ji < length (collected st'))%nat).
Proof.
  intros Hentry Hvalid Hbuf.
  destruct (find_max_init_result st Hentry Hvalid Hbuf)
    as (st' & Hrun & _ & _ & _ & _ & Hc & _ & _ & _ & Hlog).
  destruct Hbuf as [[Ha _] [Hi _]].
  destruct (array_header_fits (num_elements st) Hvalid) as [Hh _].
  destruct (rendered_whole (len (array_str st)) (array_header (num_elements st))
              (num_elements st) (elements st)) as (ja & Hwa & Hca); [lia|].
  destruct (rendered_whole (len (indices_str st)) indices_header
              (len (result_indices st)) (result_indices st)) as (ji & Hwi & Hci);
    [change (len indices_header) with 25; lia|].
  exists st', ja, ji. split; [exact Hrun|]. cbv zeta.
  rewrite Hlog, drop_app_length, Hc. unfold run_log.
  split; [exact Hwa|]. split.
  { right. apply elem_of_app. left. apply render_log_line. }
  split.
  { rewrite <- Hca. split.
    - intros Hin. apply elem_of_cons in Hin as [Hin|Hin]; [discriminate|].
      apply elem_of_app in Hin as [Hin|Hin].
      + apply render_log_records in Hin as [Hin|[_ Hin]]; [discriminate|exact Hin].
      + apply elem_of_cons in Hin as [Hin|Hin]; [discriminate|].
        apply render_log_records in Hin as [Hin|[Hin _]]; discriminate.
    - intros Hcut. right. apply elem_of_app. left. now apply render_log_warning. }
  split; [exact Hwi|]. split.
  { right. apply elem_of_app. right. right. apply render_log_line. }
  rewrite <- Hci. split.
  - intros Hin. apply elem_of_cons in Hin as [Hin|Hin]; [discriminate|].
    apply elem_of_app in Hin as [Hin|Hin].
    + apply render_log_records in Hin as [Hin|[Hin _]]; discriminate.
    + apply elem_of_cons in Hin as [Hin|Hin]; [discriminate|].
      apply render_log_records in Hin as [Hin|[_ Hin]]; [discriminate|exact Hin].
  - intros Hcut. right. apply elem_of_app. right. right.
    now apply render_log_warning.
Qed.

Lemma cut_lines_hold_whole_elements_witness :
  exists st' (ja ji : nat),
    find_max_init undersized = Some (0, st') /\
    let new := drop 0 (klog st') in
    whole_elements 40 (array_header 4)
                   (item_texts 4 0 [100; 200; -300; 7])
                   ja (array_line undersized) /\
    (KERN_INFO, array_line undersized ++ [nl]) ∈ new /\
    ((KERN_WARNING, array_warning) ∈ new <-> (ja < 4)%nat) /\
    whole_elements 40 indices_header
                   (item_texts (len (collected st')) 0 (collected st'))
                   ji (indices_line undersized) /\
    (KERN_INFO, indices_line undersized ++ [nl]) ∈ new /\
    ((KERN_WARNING, indices_warning) ∈ new <-> (ji < length (collected st'))%nat).
Proof.
  apply (cut_lines_hold_whole_elements undersized).
  - unfold undersized. entry_of_loaded.
  - unfold valid_count, MAX_ARRAY_SIZE, undersized, loaded_with, len. simpl. lia.
  - unfold buffers_hold_headers, INT_MAX, undersized, loaded_with, len. simpl. lia.
Defined.

(** ** Beyond the claims: load and unload *)



(** ** Beyond the claims: the first scan and the bound on the count *)

Lemma bind_None {A B} (m : M A) (f : A -> M B) (st : state) :
  m st = None -> bind m f st = None.
Proof. unfold bind. intros ->. reflexivity. Qed.

(** A scan that is asked for more elements than the array has left reads
    past its end. *)
Lemma scan_max_past_end :
  forall (k i : nat) (st : state),
    len (input_array st) <= INT_MAX ->
    (i <= length (input_array st))%nat ->
    (length (input_array st) < i + k)%nat ->
    scan_max k (Z.of_nat i) st = None.
Proof.
  induction k as [|k IH]; intros i st Hlen Hi Hk; [lia|].
  cbn [scan_max].
  destruct (input_array st !! i) as [x|] eqn:Hx.
  - apply lookup_lt_Some in Hx as Hlt.
    erewrite bind_Some by (apply (load_at INPUT_ARRAY); exact Hx).
    erewrite bind_Some by reflexivity.
    rewrite wrap32_int by (unfold is_int, INT_MIN, INT_MAX, len in *; lia).
    replace (Z.of_nat i + 1) with (Z.of_nat (S i)) by lia.
    destruct (x >? max_val st);
      (erewrite bind_Some by reflexivity; apply IH;
       cbn [upd_max_val input_array]; [exact Hlen|lia|lia]).
  - apply bind_None. unfold load.
    destruct (Z.leb_spec 0 (Z.of_nat i)); [|reflexivity].
    cbn [arr_of]. rewrite Nat2Z.id, Hx. reflexivity.
Qed.

(** X8.  The first scan is safe exactly up to the size of the array.  Run
    over [k] elements of a 16-slot array from any state, it changes
    nothing but [max_val], which it never lowers and only ever replaces by
    an element it visits that bounds all of them; asked for more than 16
    elements it reads past the array.  The check of lines 32-35 is what
    keeps the routine from that. *)
Theorem first_scan_needs_the_bound (st : state) (k : nat) :
  len (input_array st) = MAX_ARRAY_SIZE ->
  (Z.of_nat k <= MAX_ARRAY_SIZE ->
   exists m,
     scan_max k 0 st = Some (tt, upd_max_val m st) /\
     max_val st <= m /\
     (forall x, x ∈ take k (input_array st) -> x <= m) /\
     (m = max_val st \/ m ∈ take k (input_array st))) /\
  (MAX_ARRAY_SIZE < Z.of_nat k -> scan_max k 0 st = None).
Proof.
  intros Hlen. unfold MAX_ARRAY_SIZE, len in *. split.
  - intros Hk. set (xs := take k (input_array st)).
    assert (Hxl : length xs = k) by (unfold xs; rewrite length_take; lia).
    exists (running_max (max_val st) xs). split.
    + rewrite <- Hxl at 1. apply (scan_max_run xs 0).
      * intros j x Hj. unfold xs in Hj. apply lookup_take_Some in Hj. tauto.
      * unfold len, INT_MAX. simpl. lia.
    + split; [apply running_max_seed|].
      split; [intros x Hx; now apply running_max_upper|].
      apply running_max_seed_or_elem.
  - intros Hk. apply (scan_max_past_end k 0 st); unfold len, INT_MAX; lia.
Qed.

Lemma first_scan_needs_the_bound_witness :
  (exists m,
     scan_max 3 0 (loaded [5; 1; 9]) = Some (tt, upd_max_val m (loaded [5; 1; 9])) /\
     max_val (loaded [5; 1; 9]) <= m /\
     (forall x, x ∈ take 3 (input_array (loaded [5; 1; 9])) -> x <= m) /\
     (m = max_val (loaded [5; 1; 9])
      \/ m ∈ take 3 (input_array (loaded [5; 1; 9])))) /\
  scan_max 17 0 (loaded [5; 1; 9]) = None.
Proof.
  split.
  - apply (proj1 (first_scan_needs_the_bound (loaded [5; 1; 9]) 3 eq_refl)).
    unfold MAX_ARRAY_SIZE. lia.
  - apply (proj2 (first_scan_needs_the_bound (loaded [5; 1; 9]) 17 eq_refl)).
    unfold MAX_ARRAY_SIZE. lia.
Defined.
